(** * easy_scpi: a shallow embedding of [scpi_instrument.py]

    The development follows the source file top to bottom: the Python
    string methods the code relies on, the [Property] class (command
    composition), the [SCPI_Instrument] class (port resolution, the
    connection life cycle, the guarded read / write / query path), and a
    small interleaving semantics of the session lock.

    Text is modelled as [string] (sequences of 8-bit characters): SCPI is
    an ASCII protocol, and [upper] / [lower] act on the ASCII letters. *)

From Stdlib Require Import String Ascii List ZArith Lia Bool Arith.
From Stdlib Require Import DecimalString.
Import ListNotations.
Open Scope string_scope.

(** ** Python string methods used by the source *)

Module PyStr.

(** Text is a string of characters below 128 ([is_ascii]): the names of
    SCPI commands, port names and resource ids are such text.  On it the
    case maps below are Python's [str.upper] and [str.lower].  Outside it
    Python's maps follow Unicode (they can change the length of a string)
    and the maps below do not model them. *)
Fixpoint is_ascii (s : string) : bool :=
  match s with
  | EmptyString => true
  | String c s' => (nat_of_ascii c <? 128)%nat && is_ascii s'
  end.

Definition upper_ascii (c : ascii) : ascii :=
  let n := nat_of_ascii c in
  if (97 <=? n)%nat && (n <=? 122)%nat then ascii_of_nat (n - 32) else c.

Definition lower_ascii (c : ascii) : ascii :=
  let n := nat_of_ascii c in
  if (65 <=? n)%nat && (n <=? 90)%nat then ascii_of_nat (n + 32) else c.

(** [s.upper()], for [s] with [is_ascii s] *)
Fixpoint upper (s : string) : string :=
  match s with
  | EmptyString => EmptyString
  | String c s' => String (upper_ascii c) (upper s')
  end.

(** [s.lower()], for [s] with [is_ascii s] *)
Fixpoint lower (s : string) : string :=
  match s with
  | EmptyString => EmptyString
  | String c s' => String (lower_ascii c) (lower s')
  end.

(** [s.startswith(p)] *)
Definition startswith (s p : string) : bool := String.prefix p s.

(** [s.endswith(p)] *)
Definition endswith (s p : string) : bool :=
  let n := String.length s in
  let m := String.length p in
  (m <=? n)%nat && (substring (n - m) m s =? p).

(** [sep.join(parts)] *)
Definition join (sep : string) (parts : list string) : string :=
  String.concat sep parts.

(** [s.replace(old, new)]: every non-overlapping occurrence, left to
    right.  [skip] counts the characters of an occurrence still to drop. *)
Fixpoint replace_from (old new : string) (skip : nat) (s : string) : string :=
  match s with
  | EmptyString => EmptyString
  | String c s' =>
      match skip with
      | S k => replace_from old new k s'
      | O =>
          if String.prefix old s
          then new ++ replace_from old new (String.length old - 1) s'
          else String c (replace_from old new 0 s')
      end
  end.

Fixpoint interleave (new s : string) : string :=
  match s with
  | EmptyString => new
  | String c s' => new ++ String c (interleave new s')
  end.

Definition replace (s old new : string) : string :=
  match old with
  | EmptyString => interleave new s
  | _ => replace_from old new 0 s
  end.

(** [any(s.startswith(p) for p in prefixes)] *)
Definition startswith_any (s : string) (prefixes : list string) : bool :=
  existsb (startswith s) prefixes.

End PyStr.

(** ** Python values that reach the code, and exceptions *)

Inductive pyval :=
| VNone
| VBool (b : bool)
| VInt (z : Z)
| VStr (s : string).

(** [str(v)] *)
Definition str (v : pyval) : string :=
  match v with
  | VNone => "None"
  | VBool true => "True"
  | VBool false => "False"
  | VInt z => NilZero.string_of_int (Z.to_int z)
  | VStr s => s
  end.

(** [bool(v)] *)
Definition truthy (v : pyval) : bool :=
  match v with
  | VNone => false
  | VBool b => b
  | VInt z => negb (z =? 0)%Z
  | VStr s => negb (s =? "")
  end.

(** The exception classes the source raises, each with its message, and
    the exceptions of the two collaborators (VISA transport, [re]). *)
Inductive exn :=
| RuntimeError (msg : string)
| ValueError (msg : string)
| TypeError (msg : string)
| VisaError (msg : string)
| ReError (msg : string).

(** A call either raises or returns. *)
Definition result (A : Type) : Type := (exn + A)%type.

(** ** class Property *)

(** Object references: the session a property was created for. *)
Definition ref := nat.

Record Property := mkProperty {
  p_inst : ref;                (* self.__inst *)
  name : string;               (* self.name *)
  arg_separator : string       (* self.arg_separator *)
}.

(** [Property.__init__] *)
Definition Property_init (inst : ref) (nm : string) (sep : string) : Property :=
  {| p_inst := inst; name := PyStr.upper nm; arg_separator := sep |}.

(** [Property.__getattr__] *)
Definition Property_getattr (self : Property) (nm : string) : Property :=
  Property_init (p_inst self)
                (PyStr.join ":" [name self; PyStr.upper nm])
                (arg_separator self).

(** [Property.val2bool] *)
Definition val2bool (val : pyval) : result bool :=
  match val with
  | VStr s =>
      let v := PyStr.lower s in
      if (v =? "on") || (v =? "1") then inr true
      else if (v =? "off") || (v =? "0") then inr false
      else inl (ValueError "Invalid input")
  | _ => inr (truthy val)
  end.

(** [Property.val2state] *)
Definition val2state (val : pyval) : result string :=
  match val2bool val with
  | inl e => inl e
  | inr state => if state then inr "ON" else inr "OFF"
  end.

(** The inputs the docstrings of [val2bool] and [val2state] list:
    on / off and 1 / 0 as text in any case, the numbers 1 and 0, and the
    booleans. *)
Definition accepted (x : pyval) : bool :=
  match x with
  | VStr s =>
      let v := PyStr.lower s in
      (v =? "on") || (v =? "off") || (v =? "1") || (v =? "0")
  | VInt z => (z =? 0)%Z || (z =? 1)%Z
  | VBool _ => true
  | VNone => false
  end.

(** *** Attribute access on a node

    [node.nm] is answered by ordinary lookup when the object or its class
    has the name; [Property.__getattr__] runs only when that lookup fails.
    The names of the instance and of the class body are read off the
    source.  The names every object has ([__class__], [__dict__],
    [__repr__], ...) depend on the interpreter and are a parameter,
    [builtin]. *)

(** The names [Property.__init__] sets (the private one stored mangled) and
    the names bound in the body of the class. *)
Definition node_names : list string :=
  ["_Property__inst"; "name"; "arg_separator"; "ON"; "OFF"; "__init__";
   "__getattr__"; "__call__"; "val2bool"; "val2state"].

(** The further names of an object of a class without [__slots__] in
    CPython 3.11. *)
Definition cpython_names : list string :=
  ["__class__"; "__delattr__"; "__dict__"; "__dir__"; "__doc__"; "__eq__";
   "__format__"; "__ge__"; "__getattribute__"; "__getstate__"; "__gt__";
   "__hash__"; "__init_subclass__"; "__le__"; "__lt__"; "__module__";
   "__ne__"; "__new__"; "__reduce__"; "__reduce_ex__"; "__repr__";
   "__setattr__"; "__sizeof__"; "__str__"; "__subclasshook__";
   "__weakref__"].

(** Ordinary lookup finds [nm] on a node. *)
Definition answered (builtin : list string) (nm : string) : bool :=
  existsb (String.eqb nm) (node_names ++ builtin)%list.

(** Ordinary lookup finds none of the names [ns]. *)
Definition unanswered (builtin : list string) (ns : list string) : bool :=
  forallb (fun n => negb (answered builtin n)) ns.

(** What an access gives. *)
Inductive node_attr :=
| NodeChild (child : Property)   (* the node [__getattr__] makes *)
| NodeText (s : string)          (* [name], [arg_separator], [ON], [OFF] *)
| NodeSession (r : ref)          (* the private [__inst] *)
| NodeOther.                     (* a method, or a member every object has *)

(** [self.nm] *)
Definition Property_access (builtin : list string) (self : Property)
  (nm : string) : node_attr :=
  if negb (answered builtin nm) then NodeChild (Property_getattr self nm)
  else if nm =? "name" then NodeText (name self)
  else if nm =? "arg_separator" then NodeText (arg_separator self)
  else if nm =? "ON" then NodeText "ON"
  else if nm =? "OFF" then NodeText "OFF"
  else if nm =? "_Property__inst" then NodeSession (p_inst self)
  else NodeOther.

(** A chain of attribute accesses [root.n1.n2...]: the node reached, if
    every access on the way gives a node. *)
Fixpoint chain (builtin : list string) (root : Property) (ns : list string)
  : option Property :=
  match ns with
  | [] => Some root
  | n :: ns' =>
      match Property_access builtin root n with
      | NodeChild child => chain builtin child ns'
      | _ => None
      end
  end.

(** The object store: properties in allocation order, a reference being
    an index.  A constructor call allocates. *)
Definition heap := list Property.

Definition alloc (h : heap) (p : Property) : heap * ref :=
  ((h ++ [p])%list, List.length h).

(** Attribute access on the object at [self]: the store afterwards and the
    reference of the node made, if one is made. *)
Definition getattr_in (builtin : list string) (h : heap) (self : ref)
  (nm : string) : option (heap * option ref) :=
  match nth_error h self with
  | Some p =>
      match Property_access builtin p nm with
      | NodeChild child =>
          let (h', c) := alloc h child in Some (h', Some c)
      | _ => Some (h, None)
      end
  | None => None
  end.

(** ** The [re] collaborator

    [_match_resource] calls [re.match(pattern, text, re.IGNORECASE)] and
    reads [group(0)] of the match.  The session code below takes that
    function as a parameter; [PyRe.re_match] is an executable model of it
    for the fragment of the pattern language that port names and the two
    pattern templates of the source produce: literals, [.], groups
    (capturing or [(?:...)]), [|] and the greedy quantifiers [*], [+],
    [?].  Anything else is reported as [ReError]. *)

Module PyRe.

Inductive regex :=
| Eps
| Chr (c : ascii)
| AnyChar
| Seq (r1 r2 : regex)
| Alt (r1 r2 : regex)
| Star (r : regex)
| Plus (r : regex)
| Opt (r : regex).

Definition eqb_ignorecase (a b : ascii) : bool :=
  Ascii.eqb (PyStr.upper_ascii a) (PyStr.upper_ascii b).

Definition newline : ascii := ascii_of_nat 10.

(** Backtracking matcher in continuation-passing style: alternatives are
    tried left to right and quantifiers are greedy, so the first success
    is the match Python reports.  The result is the text left over after
    the match. *)
Fixpoint rmatch (r : regex) (s : string) (k : string -> option string)
  {struct r} : option string :=
  match r with
  | Eps => k s
  | Chr c =>
      match s with
      | String d s' => if eqb_ignorecase c d then k s' else None
      | EmptyString => None
      end
  | AnyChar =>
      match s with
      | String d s' => if Ascii.eqb d newline then None else k s'
      | EmptyString => None
      end
  | Seq r1 r2 => rmatch r1 s (fun s' => rmatch r2 s' k)
  | Alt r1 r2 =>
      match rmatch r1 s k with
      | Some rest => Some rest
      | None => rmatch r2 s k
      end
  | Opt r' =>
      match rmatch r' s k with
      | Some rest => Some rest
      | None => k s
      end
  | Star r' =>
      (fix loop (fuel : nat) (s : string) {struct fuel} : option string :=
         match fuel with
         | O => k s
         | S f =>
             match rmatch r' s (fun s' =>
                     if (String.length s' <? String.length s)%nat
                     then loop f s' else None) with
             | Some rest => Some rest
             | None => k s
             end
         end) (String.length s) s
  | Plus r' =>
      rmatch r' s
        ((fix loop (fuel : nat) (s : string) {struct fuel} : option string :=
         match fuel with
         | O => k s
         | S f =>
             match rmatch r' s (fun s' =>
                     if (String.length s' <? String.length s)%nat
                     then loop f s' else None) with
             | Some rest => Some rest
             | None => k s
             end
         end) (String.length s))
  end.

(** *** Pattern syntax *)

(** A sequence under construction (most recent item first, each with a
    mark telling whether it already carries a quantifier) and the
    alternatives completed so far in the same group. *)
Record frame := mkFrame {
  alts : list regex;
  items : list (regex * bool)
}.

Definition empty_frame : frame := {| alts := []; items := [] |}.

Definition seq_of (its : list (regex * bool)) : regex :=
  fold_left (fun acc it => match acc with Eps => fst it | _ => Seq (fst it) acc end)
            its Eps.

Definition regex_of (f : frame) : regex :=
  fold_left (fun acc a => Alt a acc) (alts f) (seq_of (items f)).

Definition push_item (r : regex) (f : frame) : frame :=
  {| alts := alts f; items := (r, false) :: items f |}.

Definition quantify (q : regex -> regex) (f : frame) : option frame :=
  match items f with
  | (r, false) :: rest => Some {| alts := alts f; items := (q r, true) :: rest |}
  | _ => None
  end.

Definition is_alnum (c : ascii) : bool :=
  let n := nat_of_ascii c in
  ((48 <=? n) && (n <=? 57) || (65 <=? n) && (n <=? 90)
   || (97 <=? n) && (n <=? 122))%nat.

Fixpoint parse (p : string) (cur : frame) (stack : list frame)
  : result regex :=
  match p with
  | EmptyString =>
      match stack with
      | [] => inr (regex_of cur)
      | _ => inl (ReError "missing ), unterminated subpattern")
      end
  | String "(" (String "?" (String ":" rest)) =>
      parse rest empty_frame (cur :: stack)
  | String "(" (String "?" _) => inl (ReError "unsupported group extension")
  | String "(" rest => parse rest empty_frame (cur :: stack)
  | String ")" rest =>
      match stack with
      | [] => inl (ReError "unbalanced parenthesis")
      | up :: stack' => parse rest (push_item (regex_of cur) up) stack'
      end
  | String "|" rest =>
      parse rest {| alts := seq_of (items cur) :: alts cur; items := [] |} stack
  | String "*" rest =>
      match quantify Star cur with
      | Some cur' => parse rest cur' stack
      | None => inl (ReError "nothing to repeat or unsupported repeat")
      end
  | String "+" rest =>
      match quantify Plus cur with
      | Some cur' => parse rest cur' stack
      | None => inl (ReError "nothing to repeat or unsupported repeat")
      end
  | String "?" rest =>
      match quantify Opt cur with
      | Some cur' => parse rest cur' stack
      | None => inl (ReError "nothing to repeat or unsupported repeat")
      end
  | String "." rest => parse rest (push_item AnyChar cur) stack
  | String "\" (String c rest) =>
      if is_alnum c then inl (ReError "unsupported escape")
      else parse rest (push_item (Chr c) cur) stack
  | String "\" EmptyString => inl (ReError "bad escape (end of pattern)")
  | String "[" _ => inl (ReError "unsupported character set")
  | String "{" _ => inl (ReError "unsupported repeat")
  | String "^" _ => inl (ReError "unsupported anchor")
  | String "$" _ => inl (ReError "unsupported anchor")
  | String c rest => parse rest (push_item (Chr c) cur) stack
  end.

(** [re.match(pattern, text, re.IGNORECASE)]: [inr None] for no match,
    [inr (Some g)] for a match whose [group(0)] is [g]. *)
Definition re_match (pattern text : string) : result (option string) :=
  match parse pattern empty_frame [] with
  | inl e => inl e
  | inr r =>
      match rmatch r text Some with
      | Some rest =>
          inr (Some (substring 0 (String.length text - String.length rest) text))
      | None => inr None
      end
  end.

End PyRe.

(** ** The VISA collaborator

    [pyvisa] is external: a resource is a state of some type [R] with the
    operations the source calls on it.  Every operation returns the new
    resource state together with its outcome, so that a call that raises
    may still have had an effect on the instrument. *)

Class Visa (R : Type) := {
  (* isinstance(inst, MessageBasedResource) *)
  is_message_based : R -> bool;
  (* reading inst.session does not raise visa.InvalidSession *)
  session_valid : R -> bool;
  (* type(inst).__name__ *)
  res_type_name : R -> string;
  (* rm.open_resource(rid) *)
  open_resource : string -> result R;
  (* setattr(inst, param, val) *)
  res_setattr : string -> pyval -> R -> result unit * R;
  res_open : R -> result unit * R;
  res_close : R -> result unit * R;
  res_write : string -> R -> result Z * R;
  res_read : R -> result string * R;
  res_query : string -> R -> result string * R;
  res_read_raw : list pyval -> R -> result string * R;
  res_query_ascii_values : list pyval -> R -> result (list pyval) * R;
  res_query_binary_values : list pyval -> R -> result (list pyval) * R
}.

(** What the host reports: [platform.system()] and
    [visa.ResourceManager(backend).list_resources()]. *)
Record Env := mkEnv {
  system : string;
  list_resources : list string
}.

(** The type of [re.match(pattern, text, re.IGNORECASE)], reduced to what
    the source reads from it: an exception, no match, or [group(0)]. *)
Definition matcher := string -> string -> result (option string).

(** Calls on the collaborators and lock operations, in program order.
    The log is a ghost field of the session: no source statement reads it. *)
Inductive event :=
| EAcquire
| ERelease
| EOpenResource (rid : string)
| ESetattr (param : string) (val : pyval)
| EOpen
| EClose
| EWrite (msg : string)
| ERead
| EQuery (msg : string)
| EReadRaw
| EQueryAscii
| EQueryBinary.

(** The messages among a list of events: what was put on the wire. *)
Definition is_message (e : event) : bool :=
  match e with
  | EWrite _ | EQuery _ => true
  | _ => false
  end.

Definition messages (l : list event) : list event := filter is_message l.

(** ** class SCPI_Instrument *)

Section Session.

Context {R : Type} {V : Visa R}.

Record SCPI_Instrument := mkSession {
  oid : ref;                                 (* identity of [self] *)
  backend : string;                          (* self.__backend *)
  inst : option R;                           (* self.__inst *)
  port : option string;                      (* self.__port *)
  port_match : bool;                         (* self.__port_match *)
  rid : option string;                       (* self.__rid *)
  resource_params : list (string * pyval);   (* self.__resource_params *)
  inst_arg_separator : string;               (* self.arg_separator *)
  prefix_cmds : bool;                        (* self.prefix_cmds *)
  handshake : pyval;                         (* self.handshake *)
  log : list event                           (* ghost *)
}.

Definition set_inst (i : option R) (s : SCPI_Instrument) : SCPI_Instrument :=
  mkSession (oid s) (backend s) i (port s) (port_match s) (rid s)
            (resource_params s) (inst_arg_separator s) (prefix_cmds s)
            (handshake s) (log s).

Definition set_port_field (p : option string) (s : SCPI_Instrument) :=
  mkSession (oid s) (backend s) (inst s) p (port_match s) (rid s)
            (resource_params s) (inst_arg_separator s) (prefix_cmds s)
            (handshake s) (log s).

Definition set_rid (r : option string) (s : SCPI_Instrument) :=
  mkSession (oid s) (backend s) (inst s) (port s) (port_match s) r
            (resource_params s) (inst_arg_separator s) (prefix_cmds s)
            (handshake s) (log s).

Definition emit (e : event) (s : SCPI_Instrument) :=
  mkSession (oid s) (backend s) (inst s) (port s) (port_match s) (rid s)
            (resource_params s) (inst_arg_separator s) (prefix_cmds s)
            (handshake s) (log s ++ [e]).

(** The session after the events [evs], holding the handle [i]. *)
Definition advance (evs : list event) (i : option R) (s : SCPI_Instrument) :=
  mkSession (oid s) (backend s) i (port s) (port_match s) (rid s)
            (resource_params s) (inst_arg_separator s) (prefix_cmds s)
            (handshake s) (log s ++ evs).

(** *** Methods as state transformers that may raise

    A raise keeps the state reached so far, as a Python exception does. *)

Definition M (A : Type) : Type := SCPI_Instrument -> result A * SCPI_Instrument.

Definition ret {A} (a : A) : M A := fun s => (inr a, s).

Definition raise {A} (e : exn) : M A := fun s => (inl e, s).

Definition bind {A B} (m : M A) (k : A -> M B) : M B :=
  fun s =>
    match m s with
    | (inl e, s') => (inl e, s')
    | (inr a, s') => k a s'
    end.

Local Notation "x <- m ;; k" := (bind m (fun x => k))
  (at level 61, m at next level, right associativity).
Local Notation "m ;;; k" := (bind m (fun _ => k))
  (at level 61, right associativity).

(** [with self._lock: body]: the lock is released on every exit. *)
Definition with_lock {A} (body : M A) : M A :=
  fun s =>
    let (r, s') := body (emit EAcquire s) in
    (r, emit ERelease s').

(** A call [self.__inst.op(...)], for an [inst] that is not [None]. *)
Definition on_inst {A} (e : event) (op : R -> result A * R) : M A :=
  fun s =>
    match inst s with
    | None => (inl (TypeError "'NoneType' object has no such attribute"), s)
    | Some r =>
        let (res, r') := op r in
        (res, set_inst (Some r') (emit e s))
    end.

(** [SCPI_Instrument.__getattr__] *)
Definition SCPI_getattr (s : SCPI_Instrument) (nm : string) : Property :=
  Property_init (oid s)
                ((if prefix_cmds s then ":" else "") ++ nm)
                (inst_arg_separator s).

(** [SCPI_Instrument.connected] *)
Definition connected (s : SCPI_Instrument) : bool :=
  match inst s with
  | None => false
  | Some r => session_valid r
  end.

(** [SCPI_Instrument.disconnect] *)
Definition disconnect : M unit :=
  fun s =>
    match inst s with
    | Some _ => on_inst EClose res_close s
    | None => ret tt s
    end.

(** [SCPI_Instrument.read] *)
Definition read : M string :=
  fun s =>
    match inst s with
    | None => raise (RuntimeError "Can not read, instrument not connected") s
    | Some _ => with_lock (on_inst ERead res_read) s
    end.

(** [hs != self.handshake] for the text [hs] just read *)
Definition differs (hs : string) (token : pyval) : bool :=
  match token with
  | VStr t => negb (hs =? t)
  | _ => true
  end.

(** The failure of the handshake, under the name of the specification's
    error taxonomy: the exception carries the text received. *)
Definition HandshakeFailure (received : string) : exn := RuntimeError received.

(** [SCPI_Instrument._handle_handshake] *)
Definition _handle_handshake : M unit :=
  fun s =>
    if truthy (handshake s)
    then (hs <- read ;;
          fun s' => if differs hs (handshake s')
                    then raise (RuntimeError hs) s'
                    else ret tt s') s
    else ret tt s.

(** [SCPI_Instrument.write] *)
Definition write (msg : string) : M Z :=
  fun s =>
    match inst s with
    | None => raise (RuntimeError "Can not write, instrument not connected.") s
    | Some _ =>
        with_lock (resp <- on_inst (EWrite msg) (res_write msg) ;;
                   _handle_handshake ;;;
                   ret resp) s
    end.

(** [SCPI_Instrument.query] *)
Definition query (msg : string) : M string :=
  fun s =>
    match inst s with
    | None => raise (RuntimeError "Can not query, instrument not connected") s
    | Some _ =>
        with_lock (resp <- on_inst (EQuery msg) (res_query msg) ;;
                   _handle_handshake ;;;
                   ret resp) s
    end.

(** [SCPI_Instrument.id] *)
Definition id : M string := query "*IDN?".

(** [SCPI_Instrument.reset] and [SCPI_Instrument.init] *)
Definition reset : M Z := write "*RST".
Definition init : M Z := write "INIT".

(** [for param, val in self.__resource_params.items(): setattr(...)] *)
Fixpoint apply_params (ps : list (string * pyval)) : M unit :=
  match ps with
  | [] => ret tt
  | (param, val) :: ps' =>
      on_inst (ESetattr param val) (res_setattr param val) ;;;
      apply_params ps'
  end.

(** [not self.rid] *)
Definition no_rid (s : SCPI_Instrument) : bool :=
  match rid s with
  | None => true
  | Some r => r =? ""
  end.

(** The first half of [connect]: open the resource and apply the
    parameters, or reopen the resource the session already holds. *)
Definition open_phase : M unit :=
  fun s =>
    match inst s with
    | None =>
        let r := match rid s with Some r => r | None => "" end in
        match open_resource r with
        | inl e => (inl e, emit (EOpenResource r) s)
        | inr h =>
            apply_params (resource_params s)
              (set_inst (Some h) (emit (EOpenResource r) s))
        end
    | Some _ => on_inst EOpen res_open s
    end.

(** [SCPI_Instrument.connect]; [explicit_remote] is [None] for the default
    [False] and [Some msg] for a message. *)
Definition connect (explicit_remote : option string) : M unit :=
  fun s =>
    if no_rid s
    then raise (RuntimeError "Can not connect. No resource id provided.") s
    else
      (open_phase ;;;
       match explicit_remote with
       | None => id ;;; ret tt
       | Some msg => write msg ;;; ret tt
       end) s.

(** [SCPI_Instrument.__del__]; the two [del] statements drop the
    attributes, which leaves no handle behind. *)
Definition SCPI_del : M unit :=
  (fun s => if connected s then disconnect s else ret tt s) ;;;
  (fun s => (inr tt, set_inst None s)).

(** [Property.__call__]; the property's [__inst] is the session, so the
    message goes through [SCPI_Instrument.query] / [SCPI_Instrument.write].
    [query_kw] is the keyword argument [query] ([None] when not passed). *)
Definition Property_call (self : Property) (values : list pyval)
  (query_kw : option bool) : M pyval :=
  let args_passed := (0 <? List.length values)%nat in
  let args :=
    if args_passed
    then " " ++ PyStr.join (arg_separator self) (map str values)
    else "" in
  let q := match query_kw with
           | None => negb args_passed
           | Some b => b
           end in
  if q
  then (r <- query (name self ++ "?" ++ args) ;; ret (VStr r))
  else (r <- write (name self ++ args) ;; ret (VInt r)).

(** *** The decorator [requires_message_based]

    The decorator is a module-level function, so the [self.__inst] in its
    body is the attribute named [__inst]: Python mangles private names only
    inside a class body.  Attribute lookup is therefore part of the model. *)

Inductive attr :=
| AttrNone
| AttrResource (r : R)
| AttrProperty (p : Property)
| AttrOther.

(** Names that ordinary lookup finds on a session: the instance dictionary
    filled by [__init__] (private names stored mangled) and the members of
    the class. *)
Definition instance_names : list string :=
  ["_SCPI_Instrument__backend"; "_SCPI_Instrument__rm";
   "_SCPI_Instrument__inst"; "_SCPI_Instrument__port";
   "_SCPI_Instrument__port_match"; "_SCPI_Instrument__rid";
   "_SCPI_Instrument__resource_params"; "arg_separator"; "prefix_cmds";
   "handshake"; "_lock"].

Definition class_names : list string :=
  ["backend"; "instrument"; "port"; "port_match"; "rid"; "resource_params";
   "id"; "value"; "connected"; "is_connected"; "connect"; "disconnect";
   "write"; "read"; "query"; "reset"; "init"; "_handle_handshake";
   "_set_port_windows"; "_set_port_linux"; "_match_resource"; "read_raw";
   "query_ascii_values"; "query_binary_values"].

(** [getattr(self, nm)]: ordinary lookup first, [__getattr__] when it
    fails. *)
Definition getattribute (s : SCPI_Instrument) (nm : string) : attr :=
  if nm =? "_SCPI_Instrument__inst"
  then match inst s with
       | None => AttrNone
       | Some r => AttrResource r
       end
  else if existsb (String.eqb nm) (instance_names ++ class_names)
  then AttrOther
  else AttrProperty (SCPI_getattr s nm).

(** [isinstance(x, MessageBasedResource)] *)
Definition isinstance_message_based (x : attr) : bool :=
  match x with
  | AttrResource r => is_message_based r
  | _ => false
  end.

(** [type(x).__name__] *)
Definition type_name (x : attr) : string :=
  match x with
  | AttrNone => "NoneType"
  | AttrResource r => res_type_name r
  | AttrProperty _ => "Property"
  | AttrOther => "object"
  end.

(** [requires_message_based(func)], with [func.__name__] passed along *)
Definition requires_message_based {A} (func_name : string) (func : M A) : M A :=
  fun s =>
    let x := getattribute s "__inst" in
    if negb (isinstance_message_based x)
    then raise (TypeError ("The method '" ++ func_name
                  ++ "' requires a MessageBasedResource, but got "
                  ++ type_name x ++ " instead.")) s
    else func s.

(** [SCPI_Instrument.read_raw] *)
Definition read_raw (args : list pyval) : M string :=
  requires_message_based "read_raw"
    (fun s =>
       match inst s with
       | None => raise (RuntimeError "Can not read, instrument not connected") s
       | Some _ => with_lock (on_inst EReadRaw (res_read_raw args)) s
       end).

(** [SCPI_Instrument.query_ascii_values] *)
Definition query_ascii_values (args : list pyval) : M (list pyval) :=
  requires_message_based "query_ascii_values"
    (fun s =>
       match inst s with
       | None => raise (RuntimeError "Can not query, instrument not connected") s
       | Some _ =>
           with_lock (resp <- on_inst EQueryAscii (res_query_ascii_values args) ;;
                      _handle_handshake ;;;
                      ret resp) s
       end).

(** [SCPI_Instrument.query_binary_values] *)
Definition query_binary_values (args : list pyval) : M (list pyval) :=
  requires_message_based "query_binary_values"
    (fun s =>
       match inst s with
       | None => raise (RuntimeError "Can not query, instrument not connected") s
       | Some _ =>
           with_lock (resp <- on_inst EQueryBinary (res_query_binary_values args) ;;
                      _handle_handshake ;;;
                      ret resp) s
       end).

(** *** Port resolution *)

(** [[re.match(resource, res, re.IGNORECASE) for res in ...]]: the
    comprehension stops at the first call that raises. *)
Fixpoint match_each (re : matcher) (resource : string) (rs : list string)
  : result (list (option string)) :=
  match rs with
  | [] => inr []
  | res :: rs' =>
      match re resource res with
      | inl e => inl e
      | inr m =>
          match match_each re resource rs' with
          | inl e => inl e
          | inr ms => inr (m :: ms)
          end
      end
  end.

(** [[match for match in matches if match is not None]], each match
    reduced to its [group(0)] *)
Fixpoint not_none (ms : list (option string)) : list string :=
  match ms with
  | [] => []
  | Some g :: ms' => g :: not_none ms'
  | None :: ms' => not_none ms'
  end.

(** The two failures of [_match_resource], under the names of the
    specification's error taxonomy. *)
Definition ResourceNotFound (resource : string) : exn :=
  RuntimeError ("Could not find resource " ++ resource).

Definition AmbiguousResource (resource : string) : exn :=
  RuntimeError ("Found multiple resources matching " ++ resource).

(** [SCPI_Instrument._match_resource] *)
Definition _match_resource (re : matcher) (env : Env) (resource : string)
  : M string :=
  match match_each re resource (list_resources env) with
  | inl e => raise e
  | inr ms =>
      let matches := not_none ms in
      if (List.length matches =? 0)%nat then raise (ResourceNotFound resource)
      else if (1 <? List.length matches)%nat
           then raise (AmbiguousResource resource)
           else match matches with
                | r_name :: _ => ret r_name
                | [] => raise (ResourceNotFound resource)
                end
  end.

Definition UnsupportedPort : exn :=
  ValueError
    "Port must start with one of the following: ['COM', 'USB', 'GPIB', 'TCPIP'].".

(** The pattern for bus-style ports, shared by both platform variants. *)
Definition bus_pattern (port port_name : string) : string :=
  if PyStr.endswith port_name "INSTR" || PyStr.endswith port_name "SOCKET"
  then port
  else port ++ "::.*::INSTR".

(** [if self.__inst is not None: self.disconnect()] *)
Definition disconnect_if_inst : M unit :=
  fun s =>
    match inst s with
    | Some _ => disconnect s
    | None => ret tt s
    end.

(** The pattern [_set_port_windows] builds for a port. *)
Definition windows_pattern (port : string) : result string :=
  let prefixes := ["COM"; "USB"; "GPIB"; "TCPIP"] in
  let port_name := PyStr.upper port in
  if PyStr.startswith_any port_name (tl prefixes)
  then inr (bus_pattern port port_name)
  else if PyStr.startswith port_name "COM"
  then let r_port := PyStr.replace port "COM" "" in
       inr ("ASRL((?:COM)?" ++ r_port ++ ")::INSTR")
  else inl UnsupportedPort.

(** [SCPI_Instrument._set_port_windows] *)
Definition _set_port_windows (re : matcher) (env : Env) (port : string)
  (mtch : bool) : M unit :=
  let prefixes := ["COM"; "USB"; "GPIB"; "TCPIP"] in
  let port_name := PyStr.upper port in
  if negb (PyStr.startswith_any port_name prefixes) then raise UnsupportedPort
  else
    disconnect_if_inst ;;;
    (fun s => ret tt (set_port_field (Some port) s)) ;;;
    resource_pattern <-
      (match windows_pattern port with
       | inr pattern => ret pattern
       | inl e => raise e
       end) ;;
    resource <-
      (if mtch then _match_resource re env resource_pattern
       else ret resource_pattern) ;;
    fun s => ret tt (set_rid (Some resource) s).

(** The serial pattern of [_set_port_linux] *)
Definition serial_pattern_linux (port : string) : string :=
  let p1 :=
    if negb (PyStr.startswith port "ASRL")
    then (if negb (PyStr.startswith port "/") then "ASRL/" else "ASRL") ++ port
    else port in
  if negb (PyStr.endswith p1 "::INSTR") then p1 ++ "::INSTR" else p1.

(** The pattern [_set_port_linux] builds for a port. *)
Definition linux_pattern (port : string) : string :=
  let prefixes := ["USB"; "GPIB"; "TCPIP"] in
  let port_name := PyStr.upper port in
  if PyStr.startswith_any port_name prefixes
  then bus_pattern port port_name
  else serial_pattern_linux port.

(** [SCPI_Instrument._set_port_linux] *)
Definition _set_port_linux (re : matcher) (env : Env) (port : string)
  (mtch : bool) : M unit :=
  disconnect_if_inst ;;;
  (fun s => ret tt (set_port_field (Some port) s)) ;;;
  resource <-
    (if mtch then _match_resource re env (linux_pattern port)
     else ret (linux_pattern port)) ;;
  fun s => ret tt (set_rid (Some resource) s).

(** The [port] setter *)
Definition set_port (re : matcher) (env : Env) (p : option string) : M unit :=
  match p with
  | None => fun s => ret tt (set_rid None (set_port_field None s))
  | Some port =>
      fun s =>
        if system env =? "Windows"
        then _set_port_windows re env port (port_match s) s
        else _set_port_linux re env port (port_match s) s
  end.

(** The pattern the [port] setter builds on the host [env], when it gets
    as far as building one. *)
Definition built_pattern (env : Env) (port : string) : result string :=
  if system env =? "Windows"
  then if negb (PyStr.startswith_any (PyStr.upper port)
                  ["COM"; "USB"; "GPIB"; "TCPIP"])
       then inl UnsupportedPort
       else windows_pattern port
  else inr (linux_pattern port).

(** [SCPI_Instrument.__init__]: the fields, then the [port] setter *)
Definition SCPI_init (re : matcher) (env : Env) (self : ref)
  (port_arg : option string) (port_match_arg : bool) (backend_arg : string)
  (handshake_arg : pyval) (arg_separator_arg : string)
  (prefix_cmds_arg : bool) (params : list (string * pyval))
  : result unit * SCPI_Instrument :=
  let hs := match handshake_arg with
            | VBool true => VStr "OK"
            | other => other
            end in
  set_port re env port_arg
    (mkSession self backend_arg None None port_match_arg None params
               arg_separator_arg prefix_cmds_arg hs []).

End Session.

Arguments SCPI_Instrument R : clear implicits.
Arguments M R : clear implicits.

Notation "x <- m ;; k" := (bind m (fun x => k))
  (at level 61, m at next level, right associativity).
Notation "m ;;; k" := (bind m (fun _ => k))
  (at level 61, right associativity).

(** ** A bench instrument

    An executable instance of the VISA interface, used for examples: the
    instrument queues a reply to every query and, when it acknowledges
    commands, an acknowledgement after every message; a read takes the
    head of the queue and times out when the queue is empty. *)

Module Bench.

Record instrument := mkInstrument {
  is_open : bool;
  message_based : bool;
  ack : option string;
  outbox : list string
}.

Definition with_outbox (q : list string) (i : instrument) : instrument :=
  mkInstrument (is_open i) (message_based i) (ack i) q.

Definition with_open (b : bool) (i : instrument) : instrument :=
  mkInstrument b (message_based i) (ack i) (outbox i).

Definition reply (msg : string) : list string :=
  if msg =? "*IDN?" then ["ACME,M1,0,1.0"]
  else if PyStr.endswith msg "?" then ["0"]
  else [].

Definition ack_of (i : instrument) : list string :=
  match ack i with
  | Some a => [a]
  | None => []
  end.

Definition invalid_session : exn := VisaError "InvalidSession".

Definition i_write (msg : string) (i : instrument) : result Z * instrument :=
  if is_open i
  then (inr (Z.of_nat (String.length msg + 1)),
        with_outbox (outbox i ++ reply msg ++ ack_of i) i)
  else (inl invalid_session, i).

Definition i_read (i : instrument) : result string * instrument :=
  if is_open i
  then match outbox i with
       | x :: q => (inr x, with_outbox q i)
       | [] => (inl (VisaError "VI_ERROR_TMO"), i)
       end
  else (inl invalid_session, i).

Definition i_query (msg : string) (i : instrument) : result string * instrument :=
  match i_write msg i with
  | (inl e, i') => (inl e, i')
  | (inr _, i') => i_read i'
  end.

(** [close] on a closed resource returns silently, as [pyvisa] does. *)
Definition i_close (i : instrument) : result unit * instrument :=
  (inr tt, with_open false i).

Definition i_open (i : instrument) : result unit * instrument :=
  (inr tt, with_open true i).

Definition i_open_resource (rid : string) : result instrument :=
  if rid =? "" then inl (VisaError "VI_ERROR_RSRC_NFOUND")
  else inr (mkInstrument true true
              (if PyStr.startswith rid "ASRL" then Some "OK"
               else if PyStr.startswith rid "GPIB" then Some "READY"
               else None)
              []).

#[global] Instance bench_visa : Visa instrument := {|
  is_message_based := message_based;
  session_valid := is_open;
  res_type_name := fun i => if message_based i then "SerialInstrument"
                            else "Resource";
  open_resource := i_open_resource;
  res_setattr := fun _ _ i => (inr tt, i);
  res_open := i_open;
  res_close := i_close;
  res_write := i_write;
  res_read := i_read;
  res_query := i_query;
  res_read_raw := fun _ i => i_read i;
  res_query_ascii_values := fun _ i => (inr [], i);
  res_query_binary_values := fun _ i => (inr [], i)
|}.

(** A session as [SCPI_Instrument(handshake=hs)] leaves it, then given a
    resource id and a handle. *)
Definition session (hs : pyval) (r : option string) (i : option instrument)
  : SCPI_Instrument instrument :=
  mkSession 0 "" i None true r [] "," false hs [].

Definition acking (a : string) : instrument :=
  mkInstrument true true (Some a) [].

Definition silent : instrument := mkInstrument true true None [].

End Bench.

(** The constructor call [SCPI_Instrument(port)] on a host, with the
    executable matcher. *)
Definition construct (host : string) (visible : list string) (port : string)
  : result unit * SCPI_Instrument Bench.instrument :=
  SCPI_init PyRe.re_match (mkEnv host visible) 0 (Some port) true ""
            (VBool false) "," false [].


(** ** Concurrent callers

    [threading.RLock] is external: a lock is free or owned by one thread
    with a count; [acquire] by the owner raises the count, [acquire] by
    another thread blocks, [release] by the owner lowers the count and
    frees the lock at zero.  A caller runs the lock operations and
    transport calls of its method in program order; a transport call
    takes two steps, its start and its return, and between the two the
    call is in flight.  Steps of different callers interleave freely:
    nothing but the lock keeps a caller from starting a call. *)

(** The events a method appends to the log when run on [s]. *)
Definition op_trace {R : Type} {V : Visa R} {A : Type}
  (m : M R A) (s : SCPI_Instrument R) : list event :=
  skipn (List.length (log s)) (log (snd (m s))).

(** The programs of the callers: one [write], [read] or [query] each. *)
Inductive caller_program {R : Type} {V : Visa R} : list event -> Prop :=
| caller_write (s : SCPI_Instrument R) (msg : string) :
    caller_program (op_trace (write msg) s)
| caller_read (s : SCPI_Instrument R) :
    caller_program (op_trace read s)
| caller_query (s : SCPI_Instrument R) (msg : string) :
    caller_program (op_trace (query msg) s).

Module Threads.

Record thread := mkThread {
  prog_done : list event;   (* steps completed, latest first *)
  todo : list event;        (* steps to come *)
  in_call : bool            (* the transport call at the head of [todo]
                               has started and not returned *)
}.

Record system := mkSystem {
  lock : option (nat * nat);   (* owner and count of the RLock *)
  pool : nat -> thread
}.

Definition upd (f : nat -> thread) (t : nat) (th : thread) : nat -> thread :=
  fun x => if (x =? t)%nat then th else f x.

(** The head of [todo] is completed. *)
Definition advance_thread (th : thread) : thread :=
  match todo th with
  | [] => th
  | e :: l => mkThread (e :: prog_done th) l false
  end.

Definition start_call (th : thread) : thread :=
  mkThread (prog_done th) (todo th) true.

(** One step of thread [t], when it can take one. *)
Definition exec (sys : system) (t : nat) : option system :=
  let th := pool sys t in
  match todo th with
  | [] => None
  | EAcquire :: _ =>
      match lock sys with
      | None =>
          Some (mkSystem (Some (t, 1)) (upd (pool sys) t (advance_thread th)))
      | Some (o, n) =>
          if (o =? t)%nat
          then Some (mkSystem (Some (t, S n))
                              (upd (pool sys) t (advance_thread th)))
          else None
      end
  | ERelease :: _ =>
      match lock sys with
      | Some (o, S n) =>
          if (o =? t)%nat
          then Some (mkSystem (match n with O => None | _ => Some (t, n) end)
                              (upd (pool sys) t (advance_thread th)))
          else None
      | _ => None
      end
  | _ :: _ =>
      if in_call th
      then Some (mkSystem (lock sys) (upd (pool sys) t (advance_thread th)))
      else Some (mkSystem (lock sys) (upd (pool sys) t (start_call th)))
  end.

(** A schedule: the threads that step, in order. *)
Fixpoint run (sched : list nat) (sys : system) : option system :=
  match sched with
  | [] => Some sys
  | t :: sched' =>
      match exec sys t with
      | Some sys' => run sched' sys'
      | None => None
      end
  end.

Definition initial (progs : nat -> list event) : system :=
  mkSystem None (fun t => mkThread [] (progs t) false).

Definition reachable (progs : nat -> list event) (sys : system) : Prop :=
  exists sched, run sched (initial progs) = Some sys.

(** The count thread [t] holds the lock with. *)
Definition held (sys : system) (t : nat) : nat :=
  match lock sys with
  | Some (o, n) => if (o =? t)%nat then n else 0
  | None => 0
  end.

(** [inner d l]: from depth [d] the steps [l] stay inside the lock up to
    their last step, the release that frees it. *)
Fixpoint inner (d : nat) (l : list event) : bool :=
  match l with
  | [] => false
  | EAcquire :: l' => inner (S d) l'
  | ERelease :: l' =>
      match d with
      | 0 => false
      | 1 => match l' with [] => true | _ => false end
      | S d' => inner d' l'
      end
  | _ :: l' => (0 <? d)%nat && inner d l'
  end.

(** A program that is one critical section, or nothing. *)
Definition one_section (l : list event) : bool :=
  match l with
  | [] => true
  | EAcquire :: l' => inner 1 l'
  | _ => false
  end.

Definition is_call (e : event) : bool :=
  match e with
  | EAcquire | ERelease => false
  | _ => true
  end.

(** What holds of a thread that holds the lock with count [d]. *)
Definition thread_ok (d : nat) (th : thread) : Prop :=
  match d with
  | 0 => in_call th = false
         /\ ((prog_done th = [] /\ one_section (todo th) = true)
             \/ todo th = [])
  | S _ => prog_done th <> []
           /\ inner d (todo th) = true
           /\ (in_call th = true ->
               exists e l, todo th = e :: l /\ is_call e = true)
  end.

Definition lock_ok (sys : system) : Prop :=
  match lock sys with
  | Some (_, n) => 0 < n
  | None => True
  end.

Definition inv (sys : system) : Prop :=
  lock_ok sys /\ forall t, thread_ok (held sys t) (pool sys t).

Inductive exec_case (sys : system) (t : nat) : system -> Prop :=
| case_acquire_free l :
    todo (pool sys t) = EAcquire :: l -> lock sys = None ->
    exec_case sys t
      (mkSystem (Some (t, 1))
         (upd (pool sys) t
            (mkThread (EAcquire :: prog_done (pool sys t)) l false)))
| case_acquire_again l n :
    todo (pool sys t) = EAcquire :: l -> lock sys = Some (t, n) ->
    exec_case sys t
      (mkSystem (Some (t, S n))
         (upd (pool sys) t
            (mkThread (EAcquire :: prog_done (pool sys t)) l false)))
| case_release l n :
    todo (pool sys t) = ERelease :: l -> lock sys = Some (t, S n) ->
    exec_case sys t
      (mkSystem (match n with O => None | _ => Some (t, n) end)
         (upd (pool sys) t
            (mkThread (ERelease :: prog_done (pool sys t)) l false)))
| case_begin e l :
    todo (pool sys t) = e :: l -> is_call e = true ->
    in_call (pool sys t) = false ->
    exec_case sys t
      (mkSystem (lock sys) (upd (pool sys) t (start_call (pool sys t))))
| case_end e l :
    todo (pool sys t) = e :: l -> is_call e = true ->
    in_call (pool sys t) = true ->
    exec_case sys t
      (mkSystem (lock sys)
         (upd (pool sys) t (mkThread (e :: prog_done (pool sys t)) l false))).

(** The shapes a caller's program can have. *)
Definition program_shape (l : list event) : Prop :=
  l = []
  \/ (exists e, Threads.is_call e = true /\ l = [EAcquire; e; ERelease])
  \/ (exists e, Threads.is_call e = true
                /\ l = [EAcquire; e; EAcquire; ERead; ERelease; ERelease]).

End Threads.

(** Three callers on the bench instrument. *)
Definition bench_progs (t : nat) : list event :=
  match t with
  | 0 => op_trace (write "OUTP ON")
           (Bench.session (VStr "OK") None (Some (Bench.acking "OK")))
  | 1 => op_trace (query "MEAS?")
           (Bench.session (VStr "OK") None (Some (Bench.acking "OK")))
  | _ => op_trace read (Bench.session (VBool false) None None)
  end.

(** ** Further members of the two classes *)

(** The nodes a program can hold: made by the constructor, or given by
    an attribute access on such a node. *)
Inductive built (builtin : list string) : Property -> Prop :=
| built_init (i : ref) (nm sep : string) :
    built builtin (Property_init i nm sep)
| built_child (p child : Property) (nm : string) :
    built builtin p ->
    Property_access builtin p nm = NodeChild child ->
    built builtin child.

(** The special methods in the body of [SCPI_Instrument]. *)
Definition session_special_names : list string :=
  ["__init__"; "__del__"; "__getattr__"; "__enter__"; "__exit__"].

(** Ordinary lookup finds [nm] on a session. *)
Definition session_answered (builtin : list string) (nm : string) : bool :=
  existsb (String.eqb nm)
    (instance_names ++ class_names ++ session_special_names ++ builtin)%list.

(** [s.nm]: [getattribute] with the special methods and the names every
    object has. *)
Definition SCPI_access {R : Type} {V : Visa R} (builtin : list string)
  (s : SCPI_Instrument R) (nm : string) : attr :=
  if existsb (String.eqb nm) (session_special_names ++ builtin)%list
  then AttrOther
  else getattribute s nm.

(** Lock discipline of a list of events read from depth [d]: the depth
    at the end, when no release finds the lock free and every write, read
    and query on the transport finds it held. *)
Fixpoint locked_run (d : nat) (l : list event) : option nat :=
  match l with
  | [] => Some d
  | EAcquire :: l' => locked_run (S d) l'
  | ERelease :: l' =>
      match d with
      | O => None
      | S d' => locked_run d' l'
      end
  | (EWrite _ | ERead | EQuery _ | EReadRaw | EQueryAscii | EQueryBinary) :: l' =>
      if (0 <? d)%nat then locked_run d l' else None
  | (EOpenResource _ | ESetattr _ _ | EOpen | EClose) :: l' => locked_run d l'
  end.

(** The configuration of a session: everything but the handle and the
    log. *)
Definition config {R : Type} {V : Visa R} (s : SCPI_Instrument R) :=
  (oid s, backend s, port s, port_match s, rid s, resource_params s,
   inst_arg_separator s, prefix_cmds s, handshake s).

(** The event of the [setattr] for an entry of the resource parameters. *)
Definition setattr_event (pv : string * pyval) : event :=
  ESetattr (fst pv) (snd pv).

(** [tidy d m]: run with the lock held [d] times, the method [m] leaves
    the configuration as it was, only appends to the log, and what it
    appends keeps the lock discipline and ends at depth [d] again. *)
Definition tidy {R : Type} {V : Visa R} {A : Type} (d : nat) (m : M R A)
  : Prop :=
  forall s, config (snd (m s)) = config s
            /\ exists ext, log (snd (m s)) = (log s ++ ext)%list
                           /\ locked_run d ext = Some d.

(** [lacks c s]: the character [c] does not occur in [s]. *)
Fixpoint lacks (c : ascii) (s : string) : bool :=
  match s with
  | EmptyString => true
  | String d s' => negb (Ascii.eqb d c) && lacks c s'
  end.

(** A bench that checks what it is given: a resource on an unreachable
    host is not opened, and a timeout that is no number is refused. *)
Module StrictBench.

Inductive device := Device (i : Bench.instrument).

Definition unwrap (d : device) : Bench.instrument :=
  match d with Device i => i end.

Definition lift {A : Type} (op : Bench.instrument -> result A * Bench.instrument)
  (d : device) : result A * device :=
  let (res, i) := op (unwrap d) in (res, Device i).

Definition d_open_resource (rid : string) : result device :=
  if PyStr.startswith rid "TCPIP" then inl (VisaError "VI_ERROR_RSRC_NFOUND")
  else match Bench.i_open_resource rid with
       | inl e => inl e
       | inr i => inr (Device i)
       end.

Definition d_setattr (param : string) (val : pyval) (d : device)
  : result unit * device :=
  match val with
  | VStr _ => if param =? "timeout"
              then (inl (TypeError "timeout must be a number"), d)
              else (inr tt, d)
  | _ => (inr tt, d)
  end.

Definition strict_visa : Visa device := {|
  is_message_based := fun d => Bench.message_based (unwrap d);
  session_valid := fun d => Bench.is_open (unwrap d);
  res_type_name := fun _ => "SerialInstrument";
  open_resource := d_open_resource;
  res_setattr := d_setattr;
  res_open := lift Bench.i_open;
  res_close := lift Bench.i_close;
  res_write := fun msg => lift (Bench.i_write msg);
  res_read := lift Bench.i_read;
  res_query := fun msg => lift (Bench.i_query msg);
  res_read_raw := fun _ => lift Bench.i_read;
  res_query_ascii_values := fun _ d => (inr [], d);
  res_query_binary_values := fun _ d => (inr [], d)
|}.

End StrictBench.

(** * Properties *)

(** ** Strings *)

Example str_examples :
  map str [VInt 5; VInt 0; VInt (-12); VBool true; VNone; VStr "a b"]
  = ["5"; "0"; "-12"; "True"; "None"; "a b"].
Proof. reflexivity. Qed.

Example replace_examples :
  (PyStr.replace "COM3" "COM" "", PyStr.replace "xCOMyCOM" "COM" "-",
   PyStr.replace "ab" "" "-", PyStr.replace "aaa" "aa" "b")
  = ("3", "x-y-", "-a-b-", "ba").
Proof. reflexivity. Qed.

Example endswith_examples :
  (PyStr.endswith "USB0::1::INSTR" "INSTR", PyStr.endswith "USB0" "INSTR",
   PyStr.endswith "TR" "INSTR", PyStr.upper "usb0::a_z{`", PyStr.lower "On@[Z")
  = (true, false, false, "USB0::A_Z{`", "on@[z").
Proof. reflexivity. Qed.

Example re_match_examples :
  map (fun pt => PyRe.re_match (fst pt) (snd pt))
    [("ASRL((?:COM)?3)::INSTR", "ASRL3::INSTR");
     ("ASRL((?:COM)?3)::INSTR", "asrlcom3::instr");
     ("ASRL((?:COM)?3)::INSTR", "ASRL30::INSTR");
     ("USB0::.*::INSTR", "USB0::1234::5678::INSTR");
     ("USB0::.*::INSTR", "USB0::1::INSTR::2::INSTR::x");
     ("USB::.*::INSTR", "USB0::1234::5678::INSTR");
     ("a|ab", "abc"); ("(a|ab)*c", "abac"); ("x+y?", "xxz")]
  = [inr (Some "ASRL3::INSTR"); inr (Some "asrlcom3::instr"); inr None;
     inr (Some "USB0::1234::5678::INSTR");
     inr (Some "USB0::1::INSTR::2::INSTR");
     inr None; inr (Some "a"); inr (Some "abac"); inr (Some "xx")].
Proof. vm_compute. reflexivity. Qed.

Lemma upper_ascii_idem (c : ascii) :
  PyStr.upper_ascii (PyStr.upper_ascii c) = PyStr.upper_ascii c.
Proof. destruct c as [[] [] [] [] [] [] [] []]; reflexivity. Qed.

Lemma upper_idem (s : string) : PyStr.upper (PyStr.upper s) = PyStr.upper s.
Proof.
  induction s as [|c s IH]; simpl; [reflexivity|].
  now rewrite upper_ascii_idem, IH.
Qed.

Lemma upper_app (a b : string) :
  PyStr.upper (a ++ b) = PyStr.upper a ++ PyStr.upper b.
Proof. induction a as [|c a IH]; simpl; [reflexivity | now rewrite IH]. Qed.

Lemma append_assoc (a b c : string) : (a ++ b) ++ c = a ++ (b ++ c).
Proof. induction a as [|x a IH]; simpl; [reflexivity | now rewrite IH]. Qed.

Lemma append_nil_r (a : string) : a ++ "" = a.
Proof. induction a as [|x a IH]; simpl; [reflexivity | now rewrite IH]. Qed.

Lemma join_snoc (sep x y : string) (l : list string) :
  PyStr.join sep ((x :: l) ++ [y])%list = PyStr.join sep (x :: l) ++ sep ++ y.
Proof.
  revert x. induction l as [|z l IH]; intros x.
  - reflexivity.
  - change (PyStr.join sep ((x :: z :: l) ++ [y])%list)
      with (x ++ sep ++ PyStr.join sep ((z :: l) ++ [y])%list).
    rewrite IH.
    change (PyStr.join sep (x :: z :: l)) with (x ++ sep ++ PyStr.join sep (z :: l)).
    now rewrite !append_assoc.
Qed.

Lemma upper_join_upper (l : list string) :
  PyStr.upper (PyStr.join ":" (map PyStr.upper l))
  = PyStr.join ":" (map PyStr.upper l).
Proof.
  induction l as [|x l IH]; [reflexivity|].
  destruct l as [|y l].
  - simpl. apply upper_idem.
  - change (PyStr.join ":" (map PyStr.upper (x :: y :: l)))
      with (PyStr.upper x ++ ":" ++ PyStr.join ":" (map PyStr.upper (y :: l))).
    rewrite !upper_app, upper_idem, IH. reflexivity.
Qed.

(** ** Command composition *)

Lemma getattr_name (p : Property) (n : string) :
  name (Property_getattr p n)
  = PyStr.upper (name p) ++ ":" ++ PyStr.upper n.
Proof.
  unfold Property_getattr, Property_init, PyStr.join.
  cbn [name String.concat].
  rewrite upper_app, (upper_app ":"), upper_idem. reflexivity.
Qed.

Lemma getattr_chain_name (ns pre : list string) (x : string) (p : Property) :
  name p = PyStr.join ":" (map PyStr.upper (x :: pre)) ->
  name (fold_left Property_getattr ns p)
  = PyStr.join ":" (map PyStr.upper ((x :: pre) ++ ns)%list).
Proof.
  revert pre p. induction ns as [|n ns IH]; intros pre p Hp.
  - now rewrite app_nil_r.
  - replace ((x :: pre) ++ n :: ns)%list with ((x :: (pre ++ [n])) ++ ns)%list
      by (simpl; now rewrite <- app_assoc).
    apply (IH (pre ++ [n])%list (Property_getattr p n)).
    rewrite getattr_name, Hp, upper_join_upper.
    change (x :: pre ++ [n])%list with ((x :: pre) ++ [n])%list.
    rewrite map_app.
    change (map PyStr.upper (x :: pre)) with (PyStr.upper x :: map PyStr.upper pre).
    change (map PyStr.upper [n]) with [PyStr.upper n].
    now rewrite join_snoc.
Qed.

Lemma getattr_chain_fields (p : Property) (ns : list string) :
  p_inst (fold_left Property_getattr ns p) = p_inst p
  /\ arg_separator (fold_left Property_getattr ns p) = arg_separator p.
Proof.
  revert p. induction ns as [|n ns IH]; intros p; [now split|].
  simpl. destruct (IH (Property_getattr p n)) as [H1 H2].
  now rewrite H1, H2.
Qed.

(** An access gives a node exactly for a name ordinary lookup does not
    find, and the node is the one [__getattr__] makes. *)
Lemma access_child (builtin : list string) (p child : Property) (nm : string) :
  Property_access builtin p nm = NodeChild child
  <-> answered builtin nm = false /\ child = Property_getattr p nm.
Proof.
  unfold Property_access. destruct (answered builtin nm); cbn [negb].
  - split; [|intros [H _]; discriminate].
    destruct (nm =? "name"); [discriminate|].
    destruct (nm =? "arg_separator"); [discriminate|].
    destruct (nm =? "ON"); [discriminate|].
    destruct (nm =? "OFF"); [discriminate|].
    destruct (nm =? "_Property__inst"); discriminate.
  - split; [intros H; inversion H; now split | intros [_ ->]; reflexivity].
Qed.

Lemma chain_some (builtin : list string) (ns : list string)
  (root node : Property) :
  chain builtin root ns = Some node ->
  node = fold_left Property_getattr ns root.
Proof.
  revert root. induction ns as [|n ns IH]; intros root H.
  - now inversion H.
  - cbn [chain] in H.
    destruct (Property_access builtin root n) as [c| | |] eqn:Ha;
      try discriminate.
    apply access_child in Ha. destruct Ha as [_ ->]. exact (IH _ H).
Qed.

Lemma chain_unanswered (builtin : list string) (ns : list string)
  (root : Property) :
  unanswered builtin ns = true ->
  chain builtin root ns = Some (fold_left Property_getattr ns root).
Proof.
  revert root. induction ns as [|n ns IH]; intros root H; [reflexivity|].
  cbn [unanswered forallb] in H. apply andb_prop in H. destruct H as [Hn Hns].
  apply negb_true_iff in Hn.
  cbn [chain]. unfold Property_access. rewrite Hn. cbn [negb fold_left].
  exact (IH _ Hns).
Qed.

(** Accessing [ns] and then [ms] is accessing the flat chain, whatever
    the names. *)
Lemma chain_app (builtin : list string) (ns ms : list string)
  (root : Property) :
  chain builtin root (ns ++ ms)%list
  = match chain builtin root ns with
    | Some node => chain builtin node ms
    | None => None
    end.
Proof.
  revert root. induction ns as [|n ns IH]; intros root; [reflexivity|].
  cbn [chain app]. destruct (Property_access builtin root n); auto.
Qed.


(** C2. For a chain of accesses [n1, ..., nk] from a root node in which
    ordinary lookup answers none of the names after the first, every
    access gives a node, the node reached has the path
    [uppercase(n1):...:uppercase(nk)] and the root's argument separator;
    accessing [ns] and then [ms] reaches the same node as the flat chain
    [ns ++ ms]; and such an access on an object of the store allocates a
    fresh object and leaves every object already there, the parent
    included, as it was. *)
Theorem chain_composition (builtin : list string) (i : ref)
  (n1 sep : string) (ns ms : list string)
  (h0 h1 : heap) (p : Property) (nm : string)
  (Hns : unanswered builtin ns = true)
  (Hms : unanswered builtin ms = true)
  (Hnm : answered builtin nm = false) :
  let root := Property_init i n1 sep in
  let h := (h0 ++ p :: h1)%list in
  exists node leaf,
    chain builtin root ns = Some node
    /\ name node = PyStr.join ":" (map PyStr.upper (n1 :: ns))
    /\ arg_separator node = sep
    /\ chain builtin node ms = Some leaf
    /\ chain builtin root (ns ++ ms)%list = Some leaf
    /\ name leaf = PyStr.join ":" (map PyStr.upper (n1 :: ns ++ ms)%list)
    /\ getattr_in builtin h (List.length h0) nm
       = Some ((h ++ [Property_getattr p nm])%list, Some (List.length h))
    /\ (forall r, r < List.length h ->
          nth_error (h ++ [Property_getattr p nm])%list r = nth_error h r)
    /\ nth_error (h ++ [Property_getattr p nm])%list (List.length h0) = Some p
    /\ List.length h0 <> List.length h.
Proof.
  intros root h.
  assert (Hroot : name root = PyStr.join ":" (map PyStr.upper [n1]))
    by reflexivity.
  assert (Hself : nth_error h (List.length h0) = Some p).
  { unfold h. rewrite nth_error_app2 by lia. now rewrite Nat.sub_diag. }
  assert (Hlen : List.length h0 < List.length h).
  { unfold h. rewrite length_app. simpl. lia. }
  pose proof (chain_unanswered builtin ns root Hns) as Hnode.
  pose proof (chain_unanswered builtin ms
                (fold_left Property_getattr ns root) Hms) as Hleaf.
  exists (fold_left Property_getattr ns root),
         (fold_left Property_getattr ms (fold_left Property_getattr ns root)).
  split; [exact Hnode|].
  split; [exact (getattr_chain_name ns [] n1 root Hroot)|].
  split; [exact (proj2 (getattr_chain_fields root ns))|].
  split; [exact Hleaf|].
  split; [now rewrite chain_app, Hnode|].
  split.
  { rewrite <- fold_left_app.
    exact (getattr_chain_name (ns ++ ms)%list [] n1 root Hroot). }
  split.
  { unfold getattr_in, Property_access. rewrite Hself, Hnm. reflexivity. }
  split; [intros r Hr; now apply nth_error_app1|].
  split; [rewrite nth_error_app1 by exact Hlen; exact Hself | lia].
Qed.

Lemma chain_composition_witness :
  let root := Property_init 0 "source" "," in
  (unanswered cpython_names ["voltage"] = true
   /\ unanswered cpython_names ["level"] = true
   /\ answered cpython_names "range" = false)
  /\ exists node leaf,
       chain cpython_names root ["voltage"] = Some node
       /\ name node = "SOURCE:VOLTAGE"
       /\ chain cpython_names node ["level"] = Some leaf
       /\ chain cpython_names root ["voltage"; "level"] = Some leaf
       /\ name leaf = "SOURCE:VOLTAGE:LEVEL"
       /\ getattr_in cpython_names [root] 0 "range"
          = Some ([root; Property_getattr root "range"], Some 1).
Proof.
  intros root.
  destruct (chain_composition cpython_names 0 "source" ","
              ["voltage"] ["level"] [] [] root "range"
              eq_refl eq_refl eq_refl)
    as (node & leaf & H1 & H2 & _ & H4 & H5 & H6 & H7 & _).
  exact (conj (conj eq_refl (conj eq_refl eq_refl))
           (ex_intro _ node
              (ex_intro _ leaf
                 (conj H1 (conj H2 (conj H4 (conj H5 (conj H6 H7)))))))).
Defined.

(** The names ordinary lookup answers are not commands: [mmem.name] is the
    path of the node itself, no node is made, and no access chain reaches
    a node with the path [MMEM:NAME]. *)
Lemma attribute_name_counterexample :
  let root := Property_init 0 "mmem" "," in
  Property_access cpython_names root "name" = NodeText "MMEM"
  /\ Property_access cpython_names root "arg_separator" = NodeText ","
  /\ Property_access cpython_names root "OFF" = NodeText "OFF"
  /\ Property_access cpython_names root "val2state" = NodeOther
  /\ chain cpython_names root ["name"] = None
  /\ chain cpython_names root ["name"]
     <> Some (Property_getattr root "name")
  /\ getattr_in cpython_names [root] 0 "name" = Some ([root], None).
Proof.
  cbv zeta.
  split; [vm_compute; reflexivity|].
  split; [vm_compute; reflexivity|].
  split; [vm_compute; reflexivity|].
  split; [vm_compute; reflexivity|].
  split; [vm_compute; reflexivity|].
  split; [vm_compute; discriminate|].
  vm_compute; reflexivity.
Qed.

(** Roots made by the session: the path starts with the name the session
    passes to the constructor, a colon in front when [prefix_cmds] is set. *)
Lemma session_chain_name {R : Type} {V : Visa R} (s : SCPI_Instrument R)
  (n1 : string) (ns : list string) :
  name (fold_left Property_getattr ns (SCPI_getattr s n1))
  = PyStr.join ":"
      (map PyStr.upper (((if prefix_cmds s then ":" else "") ++ n1) :: ns)).
Proof. exact (getattr_chain_name ns [] _ (SCPI_getattr s n1) eq_refl). Qed.

Example chain_examples :
  let s := Bench.session (VBool false) None None in
  option_map name
    (chain cpython_names (SCPI_getattr s "source") ["voltage"; "Level"])
  = Some "SOURCE:VOLTAGE:LEVEL"
  /\ option_map name (chain cpython_names (Property_init 0 ":syst" ",") ["err"])
     = Some ":SYST:ERR"
  /\ SCPI_access cpython_names s "init" = AttrOther
  /\ SCPI_access cpython_names s "__class__" = AttrOther.
Proof. repeat split. Qed.

(** ** Boolean and state conversion *)

Lemma val2state_fixed (x : pyval) (st : string) :
  val2state x = inr st -> val2state (VStr st) = inr st.
Proof.
  unfold val2state. destruct (val2bool x) as [e|[|]]; intros H;
    inversion H; reflexivity.
Qed.

Lemma val2state_accepted (x : pyval) :
  accepted x = true -> exists st, val2state x = inr st.
Proof.
  unfold val2state, val2bool, accepted.
  destruct x as [|b|z|s]; try discriminate.
  - intros _. destruct b; simpl; eauto.
  - intros _. simpl. destruct (negb (z =? 0)%Z); eauto.
  - destruct (PyStr.lower s =? "on"), (PyStr.lower s =? "off"),
      (PyStr.lower s =? "1"), (PyStr.lower s =? "0"); simpl;
      intros H; try discriminate; eauto.
Qed.

(** C8. On every accepted input (on / off, 1 / 0 as text or number,
    booleans, in any case) [val2state] returns a state on which a second
    application returns the same state; the canonical tokens ON and OFF
    are sent to themselves. *)
Theorem val2state_idempotent (x : pyval) (Hx : accepted x = true) :
  (exists st, val2state x = inr st
              /\ val2state (VStr st) = inr st
              /\ (st = "ON" \/ st = "OFF"))
  /\ val2state (VStr "ON") = inr "ON"
  /\ val2state (VStr "OFF") = inr "OFF".
Proof.
  split; [|split; reflexivity].
  destruct (val2state_accepted x Hx) as [st Hst].
  exists st. split; [exact Hst|]. split; [exact (val2state_fixed x st Hst)|].
  unfold val2state in Hst.
  destruct (val2bool x) as [e|[|]]; inversion Hst; auto.
Qed.

Lemma val2state_idempotent_witness :
  accepted (VStr "oN") = true
  /\ ((exists st, val2state (VStr "oN") = inr st
                  /\ val2state (VStr st) = inr st
                  /\ (st = "ON" \/ st = "OFF"))
      /\ val2state (VStr "ON") = inr "ON"
      /\ val2state (VStr "OFF") = inr "OFF").
Proof.
  split; [reflexivity | apply (val2state_idempotent (VStr "oN")); reflexivity].
Defined.

Example val2state_examples :
  map val2state [VStr "On"; VStr "OFF"; VStr "1"; VStr "0"; VInt 1; VInt 0;
                 VBool true; VBool false; VStr "yes"; VInt 2]
  = [inr "ON"; inr "OFF"; inr "ON"; inr "OFF"; inr "ON"; inr "OFF";
     inr "ON"; inr "OFF"; inl (ValueError "Invalid input"); inr "ON"].
Proof. reflexivity. Qed.

(** ** The guarded I/O path *)

Section SessionFacts.

Context {R : Type} {V : Visa R}.

Implicit Types (s : SCPI_Instrument R) (r : R) (msg : string).

Lemma messages_app (l1 l2 : list event) :
  messages (l1 ++ l2)%list = (messages l1 ++ messages l2)%list.
Proof. apply filter_app. Qed.

Lemma advance_emit e evs i s :
  emit e (advance evs i s) = advance (evs ++ [e]) i s.
Proof. unfold emit, advance; simpl. now rewrite <- app_assoc. Qed.

Lemma advance_set_inst evs i j s :
  set_inst j (advance evs i s) = advance evs j s.
Proof. reflexivity. Qed.

Lemma inst_emit e s : inst (emit e s) = inst s.
Proof. reflexivity. Qed.

Lemma emit_advance e s : emit e s = advance [e] (inst s) s.
Proof. reflexivity. Qed.

Lemma advance_advance evs1 evs2 i j s :
  advance evs2 j (advance evs1 i s) = advance (evs1 ++ evs2) j s.
Proof. unfold advance; simpl. now rewrite <- app_assoc. Qed.

Ltac norm_adv s :=
  rewrite ?(emit_advance EAcquire s);
  repeat (rewrite advance_emit || rewrite advance_set_inst
          || rewrite advance_advance);
  cbn [app].

(** [read] on a session that holds a handle: one transport read inside
    the lock, whatever the handshake setting. *)
Lemma read_run s r :
  inst s = Some r ->
  read s = (fst (res_read r),
            advance [EAcquire; ERead; ERelease] (Some (snd (res_read r))) s).
Proof.
  intros H. unfold read. rewrite H. unfold with_lock, on_inst.
  rewrite inst_emit, H.
  destruct (res_read r) as [res r1]. cbn [fst snd].
  now norm_adv s.
Qed.

Lemma handshake_run s r :
  inst s = Some r ->
  _handle_handshake s =
    if truthy (handshake s)
    then (match fst (res_read r) with
          | inl e => inl e
          | inr hs => if differs hs (handshake s)
                      then inl (RuntimeError hs) else inr tt
          end,
          advance [EAcquire; ERead; ERelease] (Some (snd (res_read r))) s)
    else (inr tt, s).
Proof.
  intros H. unfold _handle_handshake.
  destruct (truthy (handshake s)); [|reflexivity].
  unfold bind. rewrite (read_run s r H).
  destruct (res_read r) as [[e|hs] r1]; cbn [fst snd]; [reflexivity|].
  cbn [handshake advance].
  destruct (differs hs (handshake s)); reflexivity.
Qed.

(** The body shared by [write], [query] and the two value queries: the
    transport call, then the handshake, all inside the lock. *)
Lemma guarded_run {A} (e : event) (op : R -> result A * R) s r :
  inst s = Some r ->
  with_lock (resp <- on_inst e op ;; _handle_handshake ;;; ret resp) s =
    match fst (op r) with
    | inl x => (inl x, advance [EAcquire; e; ERelease] (Some (snd (op r))) s)
    | inr v =>
        if truthy (handshake s)
        then (match fst (res_read (snd (op r))) with
              | inl x => inl x
              | inr hs => if differs hs (handshake s)
                          then inl (RuntimeError hs) else inr v
              end,
              advance [EAcquire; e; EAcquire; ERead; ERelease; ERelease]
                      (Some (snd (res_read (snd (op r))))) s)
        else (inr v, advance [EAcquire; e; ERelease] (Some (snd (op r))) s)
    end.
Proof.
  intros H. unfold with_lock, bind at 1, on_inst.
  rewrite inst_emit, H.
  destruct (op r) as [[x|v] r1]; cbn [fst snd].
  - now norm_adv s.
  - unfold bind, ret. norm_adv s.
    rewrite (handshake_run _ r1) by reflexivity.
    cbn [handshake advance].
    destruct (truthy (handshake s)).
    + destruct (res_read r1) as [[x|hs] r2]; cbn [fst snd].
      * now norm_adv s.
      * destruct (differs hs (handshake s)); now norm_adv s.
    + now norm_adv s.
Qed.

Lemma write_run s r msg :
  inst s = Some r ->
  write msg s =
    with_lock (resp <- on_inst (EWrite msg) (res_write msg) ;;
               _handle_handshake ;;; ret resp) s.
Proof. intros H. unfold write. now rewrite H. Qed.

Lemma query_run s r msg :
  inst s = Some r ->
  query msg s =
    with_lock (resp <- on_inst (EQuery msg) (res_query msg) ;;
               _handle_handshake ;;; ret resp) s.
Proof. intros H. unfold query. now rewrite H. Qed.

Lemma log_advance evs i s : log (advance evs i s) = (log s ++ evs)%list.
Proof. reflexivity. Qed.

(** A guarded call puts exactly its own message on the wire. *)
Lemma guarded_messages {A} (e : event) (op : R -> result A * R) s r :
  inst s = Some r ->
  is_message e = true ->
  messages (log (snd (with_lock (resp <- on_inst e op ;;
                                 _handle_handshake ;;; ret resp) s)))
  = (messages (log s) ++ [e])%list.
Proof.
  intros H He. rewrite (guarded_run e op s r H).
  destruct (fst (op r)); [|destruct (truthy (handshake s))];
    cbn [snd]; rewrite log_advance, messages_app; f_equal;
    unfold messages; simpl; now rewrite He.
Qed.

Lemma bind_ret_snd {A B} (m : M R A) (f : A -> B) s :
  snd ((x <- m ;; ret (f x)) s) = snd (m s).
Proof. unfold bind, ret. now destruct (m s) as [[e|a] s']. Qed.

(** C1. Invoking a command node: with [query] not passed the call is a
    query when no values are passed and a write otherwise; the text of a
    query is the path, a question mark and, when values are passed, a
    space and the values joined by the separator; the text of a write is
    the path and, when values are passed, a space and the joined values;
    [query=True] and [query=False] override the default.  On a session
    that holds a handle that text is the one message put on the wire. *)
Theorem invoke_mode (p : Property) (v : pyval) (vs : list pyval) s r
  (Hinst : inst s = Some r) :
  let joined := PyStr.join (arg_separator p) (map str (v :: vs)) in
  (Property_call p [] None = (x <- query (name p ++ "?") ;; ret (VStr x))
   /\ Property_call p (v :: vs) None
      = (x <- write (name p ++ " " ++ joined) ;; ret (VInt x))
   /\ Property_call p [] (Some true)
      = (x <- query (name p ++ "?") ;; ret (VStr x))
   /\ Property_call p (v :: vs) (Some true)
      = (x <- query (name p ++ "?" ++ " " ++ joined) ;; ret (VStr x))
   /\ Property_call p (v :: vs) (Some false)
      = (x <- write (name p ++ " " ++ joined) ;; ret (VInt x))
   /\ Property_call p [] (Some false)
      = (x <- write (name p) ;; ret (VInt x)))
  /\ messages (log (snd (Property_call p [] None s)))
     = (messages (log s) ++ [EQuery (name p ++ "?")])%list
  /\ messages (log (snd (Property_call p (v :: vs) None s)))
     = (messages (log s) ++ [EWrite (name p ++ " " ++ joined)])%list
  /\ messages (log (snd (Property_call p (v :: vs) (Some true) s)))
     = (messages (log s) ++ [EQuery (name p ++ "?" ++ " " ++ joined)])%list
  /\ messages (log (snd (Property_call p [] (Some false) s)))
     = (messages (log s) ++ [EWrite (name p)])%list.
Proof.
  intros joined.
  assert (Hbare : Property_call p [] (Some false)
                  = (x <- write (name p) ;; ret (VInt x))).
  { unfold Property_call. cbn. now rewrite append_nil_r. }
  split; [repeat split; solve [reflexivity | exact Hbare]|].
  repeat split.
  - change (Property_call p [] None)
      with (x <- query (name p ++ "?") ;; ret (VStr x)).
    rewrite bind_ret_snd, (query_run s r _ Hinst).
    now apply (guarded_messages _ _ s r).
  - change (Property_call p (v :: vs) None)
      with (x <- write (name p ++ " " ++ joined) ;; ret (VInt x)).
    rewrite bind_ret_snd, (write_run s r _ Hinst).
    now apply (guarded_messages _ _ s r).
  - change (Property_call p (v :: vs) (Some true))
      with (x <- query (name p ++ "?" ++ " " ++ joined) ;; ret (VStr x)).
    rewrite bind_ret_snd, (query_run s r _ Hinst).
    now apply (guarded_messages _ _ s r).
  - rewrite Hbare, bind_ret_snd, (write_run s r _ Hinst).
    now apply (guarded_messages _ _ s r).
Qed.

(** C5. With a handshake token configured, a write and a query whose
    transport call returns are followed by exactly one read; the call
    returns the transport result when the text read is the token and
    raises the text read otherwise; in both cases the session is left
    holding the handle as the read left it, no close having been issued.
    A plain read is one transport read and nothing else. *)
Theorem handshake_enforced s r (tok : string)
  (Hinst : inst s = Some r) (Htok : handshake s = VStr tok)
  (Hne : tok <> "") :
  (forall msg v r1 txt r2,
      res_write msg r = (inr v, r1) -> res_read r1 = (inr txt, r2) ->
      let s' := advance [EAcquire; EWrite msg; EAcquire; ERead;
                         ERelease; ERelease] (Some r2) s in
      write msg s = (if txt =? tok then inr v else inl (HandshakeFailure txt), s')
      /\ connected s' = session_valid r2)
  /\ (forall msg v r1 txt r2,
      res_query msg r = (inr v, r1) -> res_read r1 = (inr txt, r2) ->
      let s' := advance [EAcquire; EQuery msg; EAcquire; ERead;
                         ERelease; ERelease] (Some r2) s in
      query msg s = (if txt =? tok then inr v else inl (HandshakeFailure txt), s')
      /\ connected s' = session_valid r2)
  /\ read s = (fst (res_read r),
               advance [EAcquire; ERead; ERelease] (Some (snd (res_read r))) s).
Proof.
  assert (Htruthy : truthy (handshake s) = true).
  { rewrite Htok. simpl. destruct (String.eqb_spec tok ""); [contradiction|reflexivity]. }
  split; [|split].
  - intros msg v r1 txt r2 Hw Hr s'. split; [|reflexivity].
    rewrite (write_run s r msg Hinst), (guarded_run _ _ s r Hinst).
    rewrite Hw. cbn [fst snd]. rewrite Htruthy, Hr. cbn [fst snd].
    rewrite Htok. cbn [differs]. now destruct (txt =? tok).
  - intros msg v r1 txt r2 Hq Hr s'. split; [|reflexivity].
    rewrite (query_run s r msg Hinst), (guarded_run _ _ s r Hinst).
    rewrite Hq. cbn [fst snd]. rewrite Htruthy, Hr. cbn [fst snd].
    rewrite Htok. cbn [differs]. now destruct (txt =? tok).
  - exact (read_run s r Hinst).
Qed.

(** ** The message-based guard *)

Lemma getattribute_inst s :
  getattribute s "__inst" = AttrProperty (SCPI_getattr s "__inst").
Proof. reflexivity. Qed.

(** C6. As the code stands the three decorated methods raise [TypeError]
    on every session, message-based transport or not: the decorator reads
    the attribute [__inst], which only [__getattr__] answers, with a
    [Property].  No transport call is made and the session is unchanged. *)
Theorem message_based_guard_rejects_all s (args : list pyval) :
  getattribute s "__inst" = AttrProperty (SCPI_getattr s "__inst")
  /\ read_raw args s
     = (inl (TypeError
          "The method 'read_raw' requires a MessageBasedResource, but got Property instead."),
        s)
  /\ query_ascii_values args s
     = (inl (TypeError
          "The method 'query_ascii_values' requires a MessageBasedResource, but got Property instead."),
        s)
  /\ query_binary_values args s
     = (inl (TypeError
          "The method 'query_binary_values' requires a MessageBasedResource, but got Property instead."),
        s).
Proof. repeat split. Qed.

(** ** Connection life cycle *)

(** C7. Given a transport whose [close] returns silently on a closed
    resource and leaves a resource closed when it returns: [disconnect]
    on a disconnected session returns normally and leaves it
    disconnected; after a [disconnect] that returned, a second one returns
    too; teardown of a disconnected session makes no transport call and
    returns, and teardown of a connected session starts with the close. *)
Theorem disconnect_idempotent s
  (Hclosed : forall r, session_valid r = false -> res_close r = (inr tt, r))
  (Hcloses : forall r r', res_close r = (inr tt, r') -> session_valid r' = false) :
  (connected s = false ->
     fst (disconnect s) = inr tt /\ connected (snd (disconnect s)) = false)
  /\ (fst (disconnect s) = inr tt ->
     connected (snd (disconnect s)) = false
     /\ fst (disconnect (snd (disconnect s))) = inr tt)
  /\ (connected s = false -> SCPI_del s = (inr tt, set_inst None s))
  /\ (connected s = true ->
     exists r, inst s = Some r
       /\ snd (disconnect s) = advance [EClose] (Some (snd (res_close r))) s
       /\ SCPI_del s
          = match fst (res_close r) with
            | inl e => (inl e, advance [EClose] (Some (snd (res_close r))) s)
            | inr _ => (inr tt, advance [EClose] None s)
            end).
Proof.
  assert (Hdis : forall s0, connected s0 = false ->
            fst (disconnect s0) = inr tt
            /\ connected (snd (disconnect s0)) = false).
  { intros s0 Hc. unfold disconnect, connected in *.
    destruct (inst s0) as [r|] eqn:Hi; [|simpl; now rewrite Hi].
    unfold on_inst. rewrite Hi, (Hclosed r Hc). simpl. now split. }
  assert (Hafter : fst (disconnect s) = inr tt ->
            connected (snd (disconnect s)) = false).
  { unfold disconnect, connected.
    destruct (inst s) as [r|] eqn:Hi; [|simpl; now rewrite Hi].
    unfold on_inst. rewrite Hi.
    destruct (res_close r) as [[e|[]] r'] eqn:Hc; simpl; [discriminate|].
    intros _. exact (Hcloses r r' Hc). }
  split; [exact (Hdis s)|].
  split; [intros H; split; [exact (Hafter H) | exact (proj1 (Hdis _ (Hafter H)))]|].
  split.
  - intros Hc. unfold SCPI_del, bind, ret. now rewrite Hc.
  - intros Hc. unfold connected in Hc.
    destruct (inst s) as [r|] eqn:Hi; [|discriminate].
    exists r. split; [reflexivity|].
    unfold SCPI_del, bind, connected, disconnect, on_inst. rewrite !Hi, Hc.
    destruct (res_close r) as [[e|[]] r']; cbn [fst snd]; split; reflexivity.
Qed.




End SessionFacts.

(** ** The properties above on the bench instrument *)

Lemma invoke_mode_witness :
  let s := Bench.session (VBool false) None (Some Bench.silent) in
  let p := Property_getattr (SCPI_getattr s "source") "voltage" in
  inst s = Some Bench.silent
  /\ messages (log (snd (Property_call p [] None s)))
     = [EQuery "SOURCE:VOLTAGE?"]
  /\ messages (log (snd (Property_call p [VInt 5; VStr "mV"] None s)))
     = [EWrite "SOURCE:VOLTAGE 5,mV"]
  /\ messages (log (snd (Property_call p [VInt 5; VStr "mV"] (Some true) s)))
     = [EQuery "SOURCE:VOLTAGE? 5,mV"]
  /\ messages (log (snd (Property_call p [] (Some false) s)))
     = [EWrite "SOURCE:VOLTAGE"].
Proof.
  intros s p. split; [reflexivity|].
  destruct (invoke_mode p (VInt 5) [VStr "mV"] s Bench.silent eq_refl)
    as (_ & H1 & H2 & H3 & H4).
  exact (conj H1 (conj H2 (conj H3 H4))).
Defined.

Lemma handshake_enforced_witness :
  let bad := Bench.session (VStr "OK") None (Some (Bench.acking "ERR")) in
  let good := Bench.session (VStr "OK") None (Some (Bench.acking "OK")) in
  (inst bad = Some (Bench.acking "ERR") /\ handshake bad = VStr "OK"
   /\ "OK" <> "")
  /\ fst (write "OUTP ON" bad) = inl (HandshakeFailure "ERR")
  /\ connected (snd (write "OUTP ON" bad)) = true
  /\ log (snd (write "OUTP ON" bad))
     = [EAcquire; EWrite "OUTP ON"; EAcquire; ERead; ERelease; ERelease]
  /\ fst (write "OUTP ON" good) = inr 8%Z
  /\ fst (query "MEAS?" good) = inr "0".
Proof.
  intros bad good.
  assert (Hne : "OK" <> "") by discriminate.
  split; [exact (conj eq_refl (conj eq_refl Hne))|].
  destruct (handshake_enforced bad (Bench.acking "ERR") "OK"
              eq_refl eq_refl Hne) as (Hw & _ & _).
  destruct (Hw "OUTP ON" _ _ _ _ eq_refl eq_refl) as [Hw1 Hw2].
  destruct (handshake_enforced good (Bench.acking "OK") "OK"
              eq_refl eq_refl Hne) as (Gw & Gq & _).
  destruct (Gw "OUTP ON" _ _ _ _ eq_refl eq_refl) as [Gw1 _].
  destruct (Gq "MEAS?" _ _ _ _ eq_refl eq_refl) as [Gq1 _].
  rewrite Hw1, Gw1, Gq1.
  exact (conj eq_refl (conj Hw2 (conj eq_refl (conj eq_refl eq_refl)))).
Defined.

Lemma bench_close_closed (i : Bench.instrument) :
  session_valid i = false -> res_close i = (inr tt, i).
Proof. destruct i as [o m a q]. simpl. intros ->. reflexivity. Defined.

Lemma bench_close_closes (i i' : Bench.instrument) :
  res_close i = (inr tt, i') -> session_valid i' = false.
Proof. intros H. inversion H. reflexivity. Defined.

Lemma disconnect_idempotent_witness :
  let s := Bench.session (VBool false) None (Some Bench.silent) in
  connected s = true
  /\ fst (disconnect s) = inr tt
  /\ connected (snd (disconnect s)) = false
  /\ fst (disconnect (snd (disconnect s))) = inr tt
  /\ SCPI_del (snd (disconnect s))
     = (inr tt, set_inst None (snd (disconnect s))).
Proof.
  intros s.
  destruct (disconnect_idempotent s bench_close_closed bench_close_closes)
    as (_ & H2 & _).
  destruct (disconnect_idempotent (snd (disconnect s))
              bench_close_closed bench_close_closes) as (_ & _ & H3 & _).
  destruct (H2 eq_refl) as [Ha Hb].
  exact (conj eq_refl (conj eq_refl (conj Ha (conj Hb (H3 Ha))))).
Defined.


(** ** Port resolution *)

Section PortFacts.

Context {R : Type} {V : Visa R}.

Implicit Types (s : SCPI_Instrument R) (re : matcher) (env : Env).

(** The three outcomes of [_match_resource] once every [re.match] has
    returned. *)
Lemma match_resource_outcome re env (pattern : string)
  (ms : list (option string)) s :
  match_each re pattern (list_resources env) = inr ms ->
  _match_resource re env pattern s =
    match not_none ms with
    | [] => (inl (ResourceNotFound pattern), s)
    | [g] => (inr g, s)
    | _ :: _ :: _ => (inl (AmbiguousResource pattern), s)
    end.
Proof.
  intros H. unfold _match_resource. rewrite H.
  destruct (not_none ms) as [|g [|g' l]]; reflexivity.
Qed.

(** The [port] setter with exact matching, from the pattern on. *)
Lemma set_port_matching re env (port pattern : string) s :
  port_match s = true ->
  fst (disconnect_if_inst s) = inr tt ->
  built_pattern env port = inr pattern ->
  let s0 := set_port_field (Some port) (snd (disconnect_if_inst s)) in
  set_port re env (Some port) s =
    match _match_resource re env pattern s0 with
    | (inl e, s1) => (inl e, s1)
    | (inr g, s1) => (inr tt, set_rid (Some g) s1)
    end.
Proof.
  intros Hm Hd Hp s0. unfold set_port, built_pattern in *. rewrite Hm.
  destruct (system env =? "Windows").
  - unfold _set_port_windows.
    destruct (negb (PyStr.startswith_any _ _)); [discriminate|].
    rewrite Hp. unfold bind, ret.
    destruct (disconnect_if_inst s) as [[e|[]] s']; [discriminate|].
    cbn [snd] in s0. fold s0.
    destruct (_match_resource re env pattern s0) as [[e|g] s1]; reflexivity.
  - inversion Hp; subst pattern. unfold _set_port_linux, bind, ret.
    destruct (disconnect_if_inst s) as [[e|[]] s']; [discriminate|].
    cbn [snd] in s0. fold s0.
    destruct (_match_resource re env (linux_pattern port) s0)
      as [[e|g] s1]; reflexivity.
Qed.

Lemma set_port_outcome re env (port pattern : string)
  (ms : list (option string)) s :
  port_match s = true ->
  fst (disconnect_if_inst s) = inr tt ->
  built_pattern env port = inr pattern ->
  match_each re pattern (list_resources env) = inr ms ->
  let s0 := set_port_field (Some port) (snd (disconnect_if_inst s)) in
  set_port re env (Some port) s =
    match not_none ms with
    | [] => (inl (ResourceNotFound pattern), s0)
    | [g] => (inr tt, set_rid (Some g) s0)
    | _ :: _ :: _ => (inl (AmbiguousResource pattern), s0)
    end.
Proof.
  intros Hm Hd Hp Hms s0.
  rewrite (set_port_matching re env port pattern s Hm Hd Hp). fold s0.
  rewrite (match_resource_outcome re env pattern ms s0 Hms).
  destruct (not_none ms) as [|g [|g' l]]; reflexivity.
Qed.

Lemma disconnect_if_inst_rid s :
  rid (snd (disconnect_if_inst s)) = rid s.
Proof.
  unfold disconnect_if_inst, disconnect, on_inst, ret.
  destruct (inst s) as [r|] eqn:Hi; [|reflexivity].
  now destruct (res_close r).
Qed.

End PortFacts.

Example resolve_examples :
  let visible := ["ASRL3::INSTR"; "USB0::1234::5678::INSTR"] in
  rid (snd (construct "Windows" visible "COM3")) = Some "ASRL3::INSTR"
  /\ rid (snd (construct "Windows" visible "USB0"))
     = Some "USB0::1234::5678::INSTR"
  /\ rid (snd (construct "Linux" visible "USB0"))
     = Some "USB0::1234::5678::INSTR"
  /\ fst (construct "Windows" visible "COM4")
     = inl (ResourceNotFound "ASRL((?:COM)?4)::INSTR")
  /\ fst (construct "Linux" visible "COM4")
     = inl (ResourceNotFound "ASRL/COM4::INSTR").
Proof. vm_compute. repeat split. Qed.

(** C3. A resource id that is no resource: the port below ends in INSTR
    and is used as the pattern as it is; [re.match] matches it against the
    head of the one visible resource, and [group(0)], the text matched, is
    stored as the resource id although the list holds no such entry. *)
Theorem partial_match_resolves_to_prefix :
  let visible := ["USB0::0x0957::0x1796::MY_INSTR::INSTR"] in
  let port := "USB0::0x0957::0x1796::MY_INSTR" in
  built_pattern (mkEnv "Windows" visible) port = inr port
  /\ match_each PyRe.re_match port visible = inr [Some port]
  /\ fst (construct "Windows" visible port) = inr tt
  /\ rid (snd (construct "Windows" visible port)) = Some port
  /\ rid (snd (construct "Linux" visible port)) = Some port
  /\ ~ In port visible.
Proof.
  cbv zeta. repeat (split; [vm_compute; reflexivity|]).
  intros [H|[]]. discriminate H.
Qed.

(** C4. With exact matching, once the pattern is built and every
    [re.match] has returned: no match makes the port assignment raise
    the not-found error, two or more matches make it raise the
    ambiguity error, and in both cases the resource id is left as it
    was.  COM4 is not found among the two resources of the example; USB0
    is ambiguous between two USB0 resources; USB is ambiguous between two
    resources whose first field is USB. *)
Theorem exactly_one_match_required :
  (forall (R : Type) (V : Visa R) (re : matcher) (env : Env)
          (port pattern : string) (ms : list (option string))
          (s : SCPI_Instrument R),
      port_match s = true ->
      fst (disconnect_if_inst s) = inr tt ->
      built_pattern env port = inr pattern ->
      match_each re pattern (list_resources env) = inr ms ->
      let s0 := set_port_field (Some port) (snd (disconnect_if_inst s)) in
      rid s0 = rid s
      /\ (not_none ms = [] ->
          set_port re env (Some port) s = (inl (ResourceNotFound pattern), s0))
      /\ (2 <= List.length (not_none ms) ->
          set_port re env (Some port) s = (inl (AmbiguousResource pattern), s0)))
  /\ fst (construct "Windows" ["ASRL3::INSTR"; "USB0::1234::5678::INSTR"] "COM4")
     = inl (ResourceNotFound "ASRL((?:COM)?4)::INSTR")
  /\ fst (construct "Windows"
            ["USB0::1234::5678::INSTR"; "USB0::4321::8765::INSTR"] "USB0")
     = inl (AmbiguousResource "USB0::.*::INSTR")
  /\ fst (construct "Windows"
            ["USB::1234::5678::INSTR"; "USB::4321::8765::INSTR"] "USB")
     = inl (AmbiguousResource "USB::.*::INSTR").
Proof.
  split; [|repeat (split; [vm_compute; reflexivity|]); vm_compute; reflexivity].
  intros R V re env port pattern ms s Hm Hd Hp Hms s0.
  pose proof (set_port_outcome re env port pattern ms s Hm Hd Hp Hms) as H.
  fold s0 in H.
  split; [apply disconnect_if_inst_rid|]. split.
  - intros Hnone. now rewrite H, Hnone.
  - intros Hlen. rewrite H.
    destruct (not_none ms) as [|g [|g' l]]; simpl in Hlen; [lia | lia | reflexivity].
Qed.

Lemma exactly_one_match_required_witness :
  let env := mkEnv "Windows" ["ASRL3::INSTR"; "USB0::1234::5678::INSTR"] in
  let s := Bench.session (VBool false) None None in
  (port_match s = true
   /\ fst (disconnect_if_inst s) = inr tt
   /\ built_pattern env "COM4" = inr "ASRL((?:COM)?4)::INSTR"
   /\ match_each PyRe.re_match "ASRL((?:COM)?4)::INSTR" (list_resources env)
      = inr [None; None])
  /\ set_port PyRe.re_match env (Some "COM4") s
     = (inl (ResourceNotFound "ASRL((?:COM)?4)::INSTR"),
        set_port_field (Some "COM4") s).
Proof.
  intros env s.
  assert (H1 : port_match s = true) by reflexivity.
  assert (H2 : fst (disconnect_if_inst s) = inr tt) by reflexivity.
  assert (H3 : built_pattern env "COM4" = inr "ASRL((?:COM)?4)::INSTR")
    by reflexivity.
  assert (H4 : match_each PyRe.re_match "ASRL((?:COM)?4)::INSTR"
                 (list_resources env) = inr [None; None])
    by (vm_compute; reflexivity).
  split; [exact (conj H1 (conj H2 (conj H3 H4)))|].
  destruct exactly_one_match_required as [Hgen _].
  destruct (Hgen _ _ PyRe.re_match env "COM4" _ [None; None] s H1 H2 H3 H4)
    as (_ & Hnone & _).
  exact (Hnone eq_refl).
Defined.

(** The claim as written fails for the port USB against two resources
    of the usual form: the pattern [USB::.*::INSTR] matches neither, and
    the error is the not-found one.  A port that is no regular expression
    makes [re.match] raise its own error. *)
Lemma usb_two_entries_counterexample :
  let visible := ["USB0::1234::5678::INSTR"; "USB0::4321::8765::INSTR"] in
  fst (construct "Windows" visible "USB")
  = inl (ResourceNotFound "USB::.*::INSTR")
  /\ fst (construct "Windows" visible "USB")
     <> inl (AmbiguousResource "USB::.*::INSTR")
  /\ fst (construct "Linux" visible "USB")
     = inl (ResourceNotFound "USB::.*::INSTR")
  /\ fst (construct "Windows" visible "USB(")
     = inl (ReError "missing ), unterminated subpattern").
Proof.
  cbv zeta.
  split; [vm_compute; reflexivity|].
  split; [vm_compute; discriminate|].
  split; vm_compute; reflexivity.
Qed.

Example read_raw_on_message_based :
  let s := Bench.session (VBool false) None (Some Bench.silent) in
  is_message_based Bench.silent = true
  /\ connected s = true
  /\ read_raw [] s
     = (inl (TypeError
          "The method 'read_raw' requires a MessageBasedResource, but got Property instead."),
        s).
Proof. repeat split. Qed.

(** ** The session lock under interleaving *)

Module ThreadFacts.
Import Threads.

Lemma exec_cases sys t sys' : exec sys t = Some sys' -> exec_case sys t sys'.
Proof.
  unfold exec, advance_thread.
  destruct (todo (pool sys t)) as [|e l] eqn:Ht; [discriminate|].
  destruct e;
    try (destruct (in_call (pool sys t)) eqn:Hc; intros H; inversion H;
         [eapply case_end | eapply case_begin]; eauto; reflexivity).
  - destruct (lock sys) as [[o n]|] eqn:Hl.
    + destruct (Nat.eqb_spec o t) as [->|]; [|discriminate].
      intros H; inversion H. now eapply case_acquire_again.
    + intros H; inversion H. now eapply case_acquire_free.
  - destruct (lock sys) as [[o [|n]]|] eqn:Hl; try discriminate.
    destruct (Nat.eqb_spec o t) as [->|]; [|discriminate].
    intros H; inversion H. now eapply case_release.
Qed.

Lemma upd_same f t th : upd f t th t = th.
Proof. unfold upd. now rewrite Nat.eqb_refl. Qed.

Lemma upd_other f t th x : x <> t -> upd f t th x = f x.
Proof. unfold upd. intros H. now destruct (Nat.eqb_spec x t). Qed.

Lemma held_owner sys t n : lock sys = Some (t, n) -> held sys t = n.
Proof. unfold held. intros ->. now rewrite Nat.eqb_refl. Qed.

Lemma held_other sys o n x :
  lock sys = Some (o, n) -> x <> o -> held sys x = 0.
Proof.
  unfold held. intros -> H. destruct (Nat.eqb_spec o x); [congruence|reflexivity].
Qed.

Lemma held_free sys x : lock sys = None -> held sys x = 0.
Proof. unfold held. now intros ->. Qed.

Lemma inner_call d e l :
  is_call e = true -> inner d (e :: l) = ((0 <? d)%nat && inner d l)%bool.
Proof. destruct e; simpl; intros H; try discriminate; reflexivity. Qed.

Lemma one_section_call e l : is_call e = true -> one_section (e :: l) = false.
Proof. destruct e; simpl; intros H; try discriminate; reflexivity. Qed.

Lemma inv_exec sys t sys' : inv sys -> exec sys t = Some sys' -> inv sys'.
Proof.
  intros [Hlock Hth] Hex. apply exec_cases in Hex.
  pose proof (Hth t) as Ht.
  destruct Hex as [l Htodo Hl | l n Htodo Hl | l n Htodo Hl
                  | e l Htodo He Hc | e l Htodo He Hc].
  - (* first acquire *)
    rewrite (held_free sys t Hl) in Ht. cbn in Ht.
    destruct Ht as [Hc [[Hd Hs]|Hnil]]; [|congruence].
    rewrite Htodo in Hs. cbn in Hs.
    split; [cbn; lia|]. intros x. destruct (Nat.eq_dec x t) as [->|Hx].
    + unfold held. cbn. rewrite Nat.eqb_refl, upd_same. cbn.
      repeat split; [discriminate | exact Hs | discriminate].
    + unfold held. cbn. rewrite upd_other by exact Hx.
      destruct (Nat.eqb_spec t x); [congruence|].
      specialize (Hth x). now rewrite (held_free sys x Hl) in Hth.
  - (* re-entrant acquire *)
    unfold lock_ok in Hlock. rewrite Hl in Hlock.
    rewrite (held_owner sys t n Hl) in Ht.
    destruct n as [|n]; [lia|]. cbn in Ht. destruct Ht as (Hd & Hin & Hc).
    rewrite Htodo in Hin.
    split; [cbn; lia|]. intros x. destruct (Nat.eq_dec x t) as [->|Hx].
    + unfold held. cbn. rewrite Nat.eqb_refl, upd_same.
      repeat split; [discriminate | exact Hin | discriminate].
    + unfold held. cbn. rewrite upd_other by exact Hx.
      destruct (Nat.eqb_spec t x); [congruence|].
      specialize (Hth x). now rewrite (held_other sys t _ x Hl Hx) in Hth.
  - (* release *)
    rewrite (held_owner sys t _ Hl) in Ht. cbn in Ht.
    destruct Ht as (Hd & Hin & Hc). rewrite Htodo in Hin.
    split; [destruct n; cbn; [exact I | lia]|].
    intros x. cbn [pool]. destruct (Nat.eq_dec x t) as [->|Hx].
    + rewrite upd_same. destruct n as [|n].
      * unfold held. cbn. split; [reflexivity|]. right.
        cbn in Hin. now destruct l.
      * unfold held. cbn. rewrite Nat.eqb_refl.
        repeat split; [discriminate | exact Hin | discriminate].
    + rewrite upd_other by exact Hx.
      specialize (Hth x). rewrite (held_other sys t _ x Hl Hx) in Hth.
      destruct n; unfold held; cbn; [exact Hth|].
      destruct (Nat.eqb_spec t x); [congruence | exact Hth].
  - (* a call starts *)
    split; [exact Hlock|]. intros x.
    change (held (mkSystem (lock sys) _) x) with (held sys x). cbn [pool].
    destruct (Nat.eq_dec x t) as [->|Hx];
      [rewrite upd_same | rewrite upd_other by exact Hx; apply Hth].
    destruct (held sys t) as [|d] eqn:Hd.
    + cbn in Ht. destruct Ht as [_ [[_ Hs]|Hnil]]; [|congruence].
      rewrite Htodo, (one_section_call e l He) in Hs. discriminate.
    + cbn in Ht |- *. destruct Ht as (Hdone & Hin & _).
      repeat split; [exact Hdone | exact Hin |]. intros _. eauto.
  - (* a call returns *)
    split; [exact Hlock|]. intros x.
    change (held (mkSystem (lock sys) _) x) with (held sys x). cbn [pool].
    destruct (Nat.eq_dec x t) as [->|Hx];
      [rewrite upd_same | rewrite upd_other by exact Hx; apply Hth].
    destruct (held sys t) as [|d] eqn:Hd.
    + cbn in Ht. destruct Ht as [Hf _]. congruence.
    + cbn [thread_ok] in Ht |- *. destruct Ht as (Hdone & Hin & _).
      rewrite Htodo, (inner_call _ e l He) in Hin.
      apply andb_prop in Hin.
      repeat split; [discriminate | exact (proj2 Hin) | discriminate].
Qed.

Lemma inv_initial (progs : nat -> list event) :
  (forall t, one_section (progs t) = true) -> inv (initial progs).
Proof.
  intros H. split; [exact I|]. intros t. cbn. split; [reflexivity|]. left.
  split; [reflexivity | apply H].
Qed.

Lemma inv_run sched : forall sys sys',
  inv sys -> run sched sys = Some sys' -> inv sys'.
Proof.
  induction sched as [|t sched IH]; intros sys sys' Hi Hr.
  - inversion Hr; now subst.
  - cbn in Hr. destruct (exec sys t) as [sys1|] eqn:He; [|discriminate].
    exact (IH sys1 sys' (inv_exec sys t sys1 Hi He) Hr).
Qed.

Lemma inv_reachable progs sys :
  (forall t, one_section (progs t) = true) -> reachable progs sys -> inv sys.
Proof.
  intros H [sched Hr]. exact (inv_run sched _ _ (inv_initial progs H) Hr).
Qed.

Lemma held_pos_owner sys t : 0 < held sys t -> exists n, lock sys = Some (t, n).
Proof.
  unfold held. destruct (lock sys) as [[o n]|]; [|lia].
  destruct (Nat.eqb_spec o t) as [->|]; [eauto | lia].
Qed.

Lemma in_call_held sys t :
  inv sys -> in_call (pool sys t) = true -> 0 < held sys t.
Proof.
  intros [_ H] Hc. specialize (H t).
  destruct (held sys t); [cbn in H; destruct H; congruence | lia].
Qed.

Lemma mid_operation_held sys t :
  inv sys -> prog_done (pool sys t) <> [] -> todo (pool sys t) <> [] ->
  0 < held sys t.
Proof.
  intros [_ H] Hd Ht. specialize (H t).
  destruct (held sys t); [|lia].
  cbn in H. destruct H as [_ [[H _]|H]]; contradiction.
Qed.

(** A thread that does not hold the lock is blocked while another does. *)
Lemma blocked_while_held sys t1 t2 :
  inv sys -> t1 <> t2 -> 0 < held sys t1 ->
  exec sys t2 = None /\ in_call (pool sys t2) = false.
Proof.
  intros Hi Hne Hh. destruct (held_pos_owner sys t1 Hh) as [n Hl].
  destruct Hi as [_ H]. specialize (H t2).
  rewrite (held_other sys t1 n t2 Hl) in H by congruence.
  cbn in H. destruct H as [Hc Hcase]. split; [|exact Hc].
  unfold exec. destruct Hcase as [[_ Hs]|Hnil]; [|now rewrite Hnil].
  destruct (todo (pool sys t2)) as [|e l]; [reflexivity|].
  destruct e; try discriminate Hs.
  rewrite Hl. destruct (Nat.eqb_spec t1 t2); [contradiction|reflexivity].
Qed.

(** The owner of the lock can always take its next step: an acquire by
    the owner does not block. *)
Lemma owner_steps sys t :
  inv sys -> 0 < held sys t -> exists sys', exec sys t = Some sys'.
Proof.
  intros [Hlk H] Hh. destruct (held_pos_owner sys t Hh) as [n Hl].
  specialize (H t). rewrite (held_owner sys t n Hl) in H.
  rewrite (held_owner sys t n Hl) in Hh.
  destruct n as [|n]; [lia|]. cbn in H. destruct H as (_ & Hin & _).
  unfold exec. destruct (todo (pool sys t)) as [|e l]; [discriminate|].
  destruct e; try (destruct (in_call (pool sys t)); eauto);
    rewrite Hl, Nat.eqb_refl; eauto.
Qed.

Lemma free_steps sys t :
  inv sys -> lock sys = None -> todo (pool sys t) <> [] ->
  exists sys', exec sys t = Some sys'.
Proof.
  intros [_ H] Hl Ht. specialize (H t). rewrite (held_free sys t Hl) in H.
  cbn in H. destruct H as [_ [[_ Hs]|Hnil]]; [|contradiction].
  unfold exec. destruct (todo (pool sys t)) as [|e l]; [contradiction|].
  destruct e; try discriminate Hs. rewrite Hl. eauto.
Qed.

End ThreadFacts.

Section CallerPrograms.

Context {R : Type} {V : Visa R}.

Implicit Types (s : SCPI_Instrument R).

Lemma skipn_log_advance evs i s :
  skipn (List.length (log s)) (log (advance evs i s)) = evs.
Proof.
  rewrite log_advance, skipn_app, Nat.sub_diag, skipn_all. reflexivity.
Qed.

Lemma guarded_trace {A} (e : event) (op : R -> result A * R) s r :
  inst s = Some r ->
  op_trace (with_lock (bind (on_inst e op)
              (fun resp => bind _handle_handshake (fun _ => ret resp)))) s
  = match fst (op r) with
    | inl _ => [EAcquire; e; ERelease]
    | inr _ => if truthy (handshake s)
               then [EAcquire; e; EAcquire; ERead; ERelease; ERelease]
               else [EAcquire; e; ERelease]
    end.
Proof.
  intros H. unfold op_trace. rewrite (guarded_run e op s r H).
  destruct (fst (op r)); [|destruct (truthy (handshake s))];
    cbn [snd]; apply skipn_log_advance.
Qed.

(** The programs of the three methods: nothing when the session holds no
    handle; else one critical section around the transport call and,
    when there is one, the handshake read with its own acquire and
    release inside. *)
Lemma write_trace s msg :
  op_trace (write msg) s =
    match inst s with
    | None => []
    | Some r =>
        match fst (res_write msg r) with
        | inl _ => [EAcquire; EWrite msg; ERelease]
        | inr _ => if truthy (handshake s)
                   then [EAcquire; EWrite msg; EAcquire; ERead;
                         ERelease; ERelease]
                   else [EAcquire; EWrite msg; ERelease]
        end
    end.
Proof.
  destruct (inst s) as [r|] eqn:Hi.
  - unfold op_trace. rewrite (write_run s r msg Hi).
    exact (guarded_trace _ _ s r Hi).
  - unfold op_trace, write. rewrite Hi. cbn. apply skipn_all.
Qed.

Lemma query_trace s msg :
  op_trace (query msg) s =
    match inst s with
    | None => []
    | Some r =>
        match fst (res_query msg r) with
        | inl _ => [EAcquire; EQuery msg; ERelease]
        | inr _ => if truthy (handshake s)
                   then [EAcquire; EQuery msg; EAcquire; ERead;
                         ERelease; ERelease]
                   else [EAcquire; EQuery msg; ERelease]
        end
    end.
Proof.
  destruct (inst s) as [r|] eqn:Hi.
  - unfold op_trace. rewrite (query_run s r msg Hi).
    exact (guarded_trace _ _ s r Hi).
  - unfold op_trace, query. rewrite Hi. cbn. apply skipn_all.
Qed.

Lemma read_trace s :
  op_trace read s =
    match inst s with
    | None => []
    | Some _ => [EAcquire; ERead; ERelease]
    end.
Proof.
  destruct (inst s) as [r|] eqn:Hi.
  - unfold op_trace. rewrite (read_run s r Hi). apply skipn_log_advance.
  - unfold op_trace, read. rewrite Hi. cbn. apply skipn_all.
Qed.

Lemma caller_shape (l : list event) :
  caller_program l -> Threads.program_shape l.
Proof.
  unfold Threads.program_shape.
  intros [s msg | s | s msg];
    rewrite ?write_trace, ?query_trace, ?read_trace;
    destruct (inst s) as [r|]; auto; right.
  - destruct (fst (res_write msg r)); [|destruct (truthy (handshake s))];
      [left | right | left]; exists (EWrite msg); split; reflexivity.
  - left. exists ERead; split; reflexivity.
  - destruct (fst (res_query msg r)); [|destruct (truthy (handshake s))];
      [left | right | left]; exists (EQuery msg); split; reflexivity.
Qed.

Lemma shape_one_section (l : list event) :
  Threads.program_shape l -> Threads.one_section l = true.
Proof.
  intros [->|[(e & He & ->)|(e & He & ->)]]; [reflexivity| |];
    cbn [Threads.one_section]; rewrite (ThreadFacts.inner_call _ e _ He);
    reflexivity.
Qed.

(** C9. Callers that each run one [write], [read] or [query], interleaved
    in any way under the session's re-entrant lock: a caller's program is
    one critical section holding the transport call and, when there is
    one, the handshake read; at most one transport call is in flight;
    from a caller's first step to its last every other caller is blocked
    with no call in flight, in particular between a transport call and
    its handshake read; the acquire of the handshake read, made by the
    owner of the lock, does not block; and while a caller has steps left
    some caller can step. *)
Theorem lock_serialises (progs : nat -> list event) (sys : Threads.system)
  (Hprogs : forall t, caller_program (progs t))
  (Hreach : Threads.reachable progs sys) :
  (forall t, Threads.program_shape (progs t))
  /\ (forall t1 t2,
        Threads.in_call (Threads.pool sys t1) = true ->
        Threads.in_call (Threads.pool sys t2) = true -> t1 = t2)
  /\ (forall t1 t2, t1 <> t2 ->
        Threads.prog_done (Threads.pool sys t1) <> [] ->
        Threads.todo (Threads.pool sys t1) <> [] ->
        Threads.exec sys t2 = None
        /\ Threads.in_call (Threads.pool sys t2) = false)
  /\ (forall t1 t2, t1 <> t2 ->
        Threads.todo (Threads.pool sys t1)
        = [EAcquire; ERead; ERelease; ERelease] ->
        (exists sys', Threads.exec sys t1 = Some sys')
        /\ Threads.exec sys t2 = None
        /\ Threads.in_call (Threads.pool sys t2) = false)
  /\ ((exists t, Threads.todo (Threads.pool sys t) <> []) ->
      exists t sys', Threads.exec sys t = Some sys').
Proof.
  assert (Hshape : forall t, Threads.program_shape (progs t))
    by (intros t; apply caller_shape, Hprogs).
  assert (Hinv : Threads.inv sys).
  { apply (ThreadFacts.inv_reachable progs); [|exact Hreach].
    intros t. apply shape_one_section, Hshape. }
  split; [exact Hshape|]. split; [|split; [|split]].
  - intros t1 t2 H1 H2.
    destruct (ThreadFacts.held_pos_owner sys t1
                (ThreadFacts.in_call_held sys t1 Hinv H1)) as [n1 E1].
    destruct (ThreadFacts.held_pos_owner sys t2
                (ThreadFacts.in_call_held sys t2 Hinv H2)) as [n2 E2].
    congruence.
  - intros t1 t2 Hne Hd Ht.
    apply (ThreadFacts.blocked_while_held sys t1 t2 Hinv Hne).
    exact (ThreadFacts.mid_operation_held sys t1 Hinv Hd Ht).
  - intros t1 t2 Hne Ht.
    assert (Hh : 0 < Threads.held sys t1).
    { destruct Hinv as [_ H]. specialize (H t1).
      destruct (Threads.held sys t1); [|lia].
      cbn in H. rewrite Ht in H. destruct H as [_ [[_ H]|H]]; discriminate. }
    split; [exact (ThreadFacts.owner_steps sys t1 Hinv Hh)|].
    exact (ThreadFacts.blocked_while_held sys t1 t2 Hinv Hne Hh).
  - intros [t Ht].
    destruct (Threads.lock sys) as [[o n]|] eqn:Hl.
    + exists o. apply (ThreadFacts.owner_steps sys o Hinv).
      rewrite (ThreadFacts.held_owner sys o n Hl).
      destruct Hinv as [Hlk _]. unfold Threads.lock_ok in Hlk.
      now rewrite Hl in Hlk.
    + exists t. exact (ThreadFacts.free_steps sys t Hinv Hl Ht).
Qed.

End CallerPrograms.

(** Three callers on the bench: a write and a query with handshake, and
    a read on a session without handle.  After the writer's acquire,
    the start and the return of its transport call, the handshake read is
    still to come and the second caller is blocked. *)
Lemma lock_serialises_witness :
  let sys := match Threads.run [0; 0; 0] (Threads.initial bench_progs) with
             | Some sys => sys
             | None => Threads.initial bench_progs
             end in
  (forall t, caller_program (bench_progs t))
  /\ Threads.reachable bench_progs sys
  /\ Threads.todo (Threads.pool sys 0)
     = [EAcquire; ERead; ERelease; ERelease]
  /\ (exists sys', Threads.exec sys 0 = Some sys')
  /\ Threads.exec sys 1 = None
  /\ Threads.in_call (Threads.pool sys 1) = false.
Proof.
  intros sys.
  assert (Hprogs : forall t, caller_program (bench_progs t)).
  { intros [|[|t]]; [apply caller_write | apply caller_query | apply caller_read]. }
  assert (Hreach : Threads.reachable bench_progs sys)
    by (exists [0; 0; 0]; reflexivity).
  assert (Htodo : Threads.todo (Threads.pool sys 0)
                  = [EAcquire; ERead; ERelease; ERelease]) by reflexivity.
  destruct (lock_serialises bench_progs sys Hprogs Hreach)
    as (_ & _ & _ & Hb & _).
  assert (Hne : 0 <> 1) by discriminate.
  destruct (Hb 0 1 Hne Htodo) as (H0 & H1 & H2).
  exact (conj Hprogs (conj Hreach (conj Htodo (conj H0 (conj H1 H2))))).
Defined.

(** * Further properties *)

(** ** Conversions *)

Lemma lower_upper_ascii (c : ascii) :
  PyStr.lower_ascii (PyStr.upper_ascii c) = PyStr.lower_ascii c.
Proof. destruct c as [[] [] [] [] [] [] [] []]; reflexivity. Qed.

Lemma lower_lower_ascii (c : ascii) :
  PyStr.lower_ascii (PyStr.lower_ascii c) = PyStr.lower_ascii c.
Proof. destruct c as [[] [] [] [] [] [] [] []]; reflexivity. Qed.

Lemma lower_upper (s : string) : PyStr.lower (PyStr.upper s) = PyStr.lower s.
Proof.
  induction s as [|c s IH]; simpl; [reflexivity|].
  now rewrite lower_upper_ascii, IH.
Qed.

Lemma lower_lower (s : string) : PyStr.lower (PyStr.lower s) = PyStr.lower s.
Proof.
  induction s as [|c s IH]; simpl; [reflexivity|].
  now rewrite lower_lower_ascii, IH.
Qed.

(** X1. [val2bool] and [val2state] raise exactly on a string that is none
    of on, off, 1, 0 (in any case), and what they raise is the
    [ValueError] with the text of the source; every other value, string
    or not, is converted. *)
Theorem conversion_rejects_other_text (x : pyval) :
  (val2bool x = inl (ValueError "Invalid input")
   <-> exists s, x = VStr s /\ accepted (VStr s) = false)
  /\ (forall e, val2bool x = inl e -> e = ValueError "Invalid input")
  /\ (forall e, val2state x = inl e <-> val2bool x = inl e).
Proof.
  split; [|split].
  - split.
    + destruct x as [|b|z|s]; try discriminate. intros H. exists s.
      split; [reflexivity|]. unfold val2bool, accepted in *.
      destruct (PyStr.lower s =? "on"), (PyStr.lower s =? "off"),
        (PyStr.lower s =? "1"), (PyStr.lower s =? "0");
        simpl in *; congruence.
    + intros (s & -> & H). unfold val2bool, accepted in *.
      destruct (PyStr.lower s =? "on"), (PyStr.lower s =? "off"),
        (PyStr.lower s =? "1"), (PyStr.lower s =? "0");
        simpl in *; congruence.
  - intros e. destruct x as [|b|z|s]; try discriminate. unfold val2bool.
    destruct ((PyStr.lower s =? "on") || (PyStr.lower s =? "1"));
      [discriminate|].
    destruct ((PyStr.lower s =? "off") || (PyStr.lower s =? "0"));
      [discriminate|]. congruence.
  - intros e. unfold val2state.
    destruct (val2bool x) as [e'|[|]]; split; congruence.
Qed.

Lemma is_ascii_upper (s : string) :
  PyStr.is_ascii s = true -> PyStr.is_ascii (PyStr.upper s) = true.
Proof.
  induction s as [|c s IH]; [reflexivity|]. cbn [PyStr.is_ascii PyStr.upper].
  intros H. apply andb_prop in H. destruct H as [Hc Hs].
  rewrite (IH Hs), andb_true_r. revert Hc.
  destruct c as [[] [] [] [] [] [] [] []]; vm_compute; congruence.
Qed.

Lemma is_ascii_lower (s : string) :
  PyStr.is_ascii s = true -> PyStr.is_ascii (PyStr.lower s) = true.
Proof.
  induction s as [|c s IH]; [reflexivity|]. cbn [PyStr.is_ascii PyStr.lower].
  intros H. apply andb_prop in H. destruct H as [Hc Hs].
  rewrite (IH Hs), andb_true_r. revert Hc.
  destruct c as [[] [] [] [] [] [] [] []]; vm_compute; congruence.
Qed.

(** X2. On a string of characters below 128 the conversions do not look
    at the case: the string, its uppercase and its lowercase (themselves
    such strings) convert alike. *)
Theorem conversion_ignores_case (s : string)
  (Hs : PyStr.is_ascii s = true) :
  PyStr.is_ascii (PyStr.upper s) = true
  /\ PyStr.is_ascii (PyStr.lower s) = true
  /\ val2bool (VStr (PyStr.upper s)) = val2bool (VStr s)
  /\ val2bool (VStr (PyStr.lower s)) = val2bool (VStr s)
  /\ val2state (VStr (PyStr.upper s)) = val2state (VStr s)
  /\ val2state (VStr (PyStr.lower s)) = val2state (VStr s).
Proof.
  split; [exact (is_ascii_upper s Hs)|].
  split; [exact (is_ascii_lower s Hs)|].
  unfold val2state, val2bool. now rewrite lower_upper, lower_lower.
Qed.

Lemma conversion_ignores_case_witness :
  PyStr.is_ascii "oFf" = true
  /\ val2bool (VStr (PyStr.upper "oFf")) = val2bool (VStr "oFf")
  /\ val2state (VStr (PyStr.lower "oFf")) = val2state (VStr "oFf").
Proof.
  destruct (conversion_ignores_case "oFf" eq_refl)
    as (_ & _ & H1 & _ & _ & H2).
  exact (conj eq_refl (conj H1 H2)).
Defined.

(** X3. The state [val2state] returns converts back to the boolean
    [val2bool] gives for the input: ON exactly for true, OFF exactly for
    false. *)
Theorem state_round_trip (x : pyval) (st : string)
  (Hst : val2state x = inr st) :
  val2bool (VStr st) = val2bool x
  /\ (st = "ON" <-> val2bool x = inr true)
  /\ (st = "OFF" <-> val2bool x = inr false).
Proof.
  unfold val2state in Hst.
  destruct (val2bool x) as [e|[|]]; inversion Hst; subst;
    repeat split; intros; try reflexivity; discriminate.
Qed.

Lemma state_round_trip_witness :
  val2state (VInt 2) = inr "ON"
  /\ val2bool (VStr "ON") = val2bool (VInt 2)
  /\ ("ON" = "ON" <-> val2bool (VInt 2) = inr true).
Proof.
  assert (H : val2state (VInt 2) = inr "ON") by reflexivity.
  destruct (state_round_trip (VInt 2) "ON" H) as (H1 & H2 & _).
  exact (conj H (conj H1 H2)).
Defined.

(** ** Nodes *)

Lemma prefix_app (a b : string) : String.prefix a (a ++ b) = true.
Proof.
  induction a as [|c a IH]; simpl; [now destruct b|].
  destruct (ascii_dec c c) as [_|n]; [exact IH | now elim n].
Qed.

Lemma length_append (a b : string) :
  String.length (a ++ b) = String.length a + String.length b.
Proof. induction a as [|c a IH]; simpl; [reflexivity | now rewrite IH]. Qed.

Lemma built_upper (builtin : list string) (p : Property) :
  built builtin p -> PyStr.upper (name p) = name p.
Proof.
  intros [i nm sep | q c nm _ Hc].
  - apply upper_idem.
  - apply access_child in Hc. destruct Hc as [_ ->].
    unfold Property_getattr, Property_init; cbn [name]. apply upper_idem.
Qed.

(** X4. Every node a program can hold has an uppercase path, and an
    access that gives a node extends it: the child's path is the parent's
    path, a colon and the uppercased name, so the parent's path is a
    proper prefix of it; the child is bound to the same session and
    separator, and the name is none that ordinary lookup answers. *)
Theorem child_extends_parent (builtin : list string) (p child : Property)
  (nm : string) (Hp : built builtin p)
  (Hc : Property_access builtin p nm = NodeChild child) :
  PyStr.upper (name p) = name p
  /\ name child = name p ++ ":" ++ PyStr.upper nm
  /\ PyStr.startswith (name child) (name p) = true
  /\ String.length (name p) < String.length (name child)
  /\ p_inst child = p_inst p
  /\ arg_separator child = arg_separator p
  /\ existsb (String.eqb nm) node_names = false.
Proof.
  pose proof (built_upper builtin p Hp) as Hu.
  apply access_child in Hc. destruct Hc as [Hnm ->].
  assert (Hn : name (Property_getattr p nm) = name p ++ ":" ++ PyStr.upper nm)
    by (rewrite getattr_name; now rewrite Hu).
  split; [exact Hu|]. split; [exact Hn|]. rewrite Hn.
  split; [apply prefix_app|].
  split; [rewrite length_append; simpl; lia|].
  split; [reflexivity|]. split; [reflexivity|].
  unfold answered in Hnm. rewrite existsb_app in Hnm.
  now apply orb_false_iff in Hnm.
Qed.

Lemma child_extends_parent_witness :
  let root := Property_init 0 "source" "," in
  let p := Property_getattr root "voltage" in
  let child := Property_getattr p "level" in
  (built cpython_names p
   /\ Property_access cpython_names p "level" = NodeChild child)
  /\ name child = "SOURCE:VOLTAGE:LEVEL"
  /\ PyStr.startswith (name child) (name p) = true.
Proof.
  intros root p child.
  assert (Hp : built cpython_names p)
    by exact (built_child cpython_names root p "voltage"
                (built_init cpython_names 0 "source" ",") eq_refl).
  assert (Hc : Property_access cpython_names p "level" = NodeChild child)
    by reflexivity.
  destruct (child_extends_parent cpython_names p child "level" Hp Hc)
    as (_ & H1 & H2 & _).
  exact (conj (conj Hp Hc) (conj H1 H2)).
Defined.

(** ** The I/O path: failures and what is left alone *)

Section MoreSessionFacts.

Context {R : Type} {V : Visa R}.

Implicit Types (s : SCPI_Instrument R) (r : R) (msg : string).

Lemma access_property s (builtin : list string) (nm : string)
  (root : Property) :
  SCPI_access builtin s nm = AttrProperty root -> root = SCPI_getattr s nm.
Proof.
  unfold SCPI_access, getattribute.
  destruct (existsb (String.eqb nm) (session_special_names ++ builtin)%list);
    [discriminate|].
  destruct (nm =? "_SCPI_Instrument__inst");
    [destruct (inst s); discriminate|].
  destruct (existsb (String.eqb nm) (instance_names ++ class_names)%list);
    [discriminate|].
  intros H. now inversion H.
Qed.

(** X5. From attribute chain to wire: when the access [s.n1] gives a
    node (ordinary lookup finds no member of that name on the session)
    and the accesses [n2, ..., nk] from it give nodes, calling the node
    reached, on a session that holds a handle, sends without values the
    one query made of the uppercased names joined by colons (a colon in
    front when [prefix_cmds] is set) and a question mark, and with values
    the one write of that path, a space and the values joined by the
    session's separator. *)
Theorem chain_call_sends (builtin : list string) s r
  (n1 : string) (ns : list string) (root node : Property)
  (v : pyval) (vs : list pyval) (Hinst : inst s = Some r)
  (Hroot : SCPI_access builtin s n1 = AttrProperty root)
  (Hnode : chain builtin root ns = Some node) :
  let path := PyStr.join ":"
                (map PyStr.upper
                   (((if prefix_cmds s then ":" else "") ++ n1) :: ns)) in
  session_answered builtin n1 = false
  /\ unanswered builtin ns = true
  /\ messages (log (snd (Property_call node [] None s)))
     = (messages (log s) ++ [EQuery (path ++ "?")])%list
  /\ messages (log (snd (Property_call node (v :: vs) None s)))
     = (messages (log s)
        ++ [EWrite (path ++ " "
                    ++ PyStr.join (inst_arg_separator s) (map str (v :: vs)))])%list.
Proof.
  intros path.
  assert (Hfree : session_answered builtin n1 = false).
  { revert Hroot. unfold SCPI_access, getattribute, session_answered.
    rewrite (app_assoc instance_names),
      (existsb_app _ (instance_names ++ class_names)%list).
    destruct (existsb (String.eqb n1) (session_special_names ++ builtin)%list);
      [intros; discriminate|].
    destruct (n1 =? "_SCPI_Instrument__inst");
      [destruct (inst s); intros; discriminate|].
    destruct (existsb (String.eqb n1) (instance_names ++ class_names)%list);
      [intros; discriminate | reflexivity]. }
  assert (Hns : unanswered builtin ns = true).
  { clear - Hnode. revert root Hnode.
    induction ns as [|n ns IH]; intros root H; [reflexivity|].
    cbn [chain] in H.
    destruct (Property_access builtin root n) as [c| | |] eqn:Ha;
      try discriminate.
    apply access_child in Ha. destruct Ha as [Hn _].
    cbn [unanswered forallb]. rewrite Hn. exact (IH _ H). }
  apply access_property in Hroot. apply chain_some in Hnode. subst root node.
  set (node := fold_left Property_getattr ns (SCPI_getattr s n1)).
  assert (Hname : name node = path) by apply session_chain_name.
  assert (Hsep : arg_separator node = inst_arg_separator s)
    by exact (proj2 (getattr_chain_fields (SCPI_getattr s n1) ns)).
  split; [exact Hfree|]. split; [exact Hns|].
  split.
  - change (Property_call node [] None)
      with (x <- query (name node ++ "?") ;; ret (VStr x)).
    rewrite bind_ret_snd, (query_run s r _ Hinst), Hname.
    now apply (guarded_messages _ _ s r).
  - change (Property_call node (v :: vs) None)
      with (x <- write (name node ++ " "
                        ++ PyStr.join (arg_separator node) (map str (v :: vs))) ;;
            ret (VInt x)).
    rewrite bind_ret_snd, (write_run s r _ Hinst), Hname, Hsep.
    now apply (guarded_messages _ _ s r).
Qed.

(** X7. With no handshake configured ([False] or the empty string) a
    write and a query are the transport call alone, inside the lock: no
    read follows, and the outcome is the transport's, raised or
    returned. *)
Theorem no_handshake_no_read s r msg
  (Hinst : inst s = Some r) (Hoff : truthy (handshake s) = false) :
  write msg s
  = (fst (res_write msg r),
     advance [EAcquire; EWrite msg; ERelease] (Some (snd (res_write msg r))) s)
  /\ query msg s
     = (fst (res_query msg r),
        advance [EAcquire; EQuery msg; ERelease]
                (Some (snd (res_query msg r))) s).
Proof.
  split.
  - rewrite (write_run s r msg Hinst), (guarded_run _ _ s r Hinst), Hoff.
    now destruct (fst (res_write msg r)).
  - rewrite (query_run s r msg Hinst), (guarded_run _ _ s r Hinst), Hoff.
    now destruct (fst (res_query msg r)).
Qed.

(** X8. When the transport call of a write or a query raises, the
    exception reaches the caller as it is, the handshake read is not
    made whatever the handshake setting, and the lock is released. *)
Theorem transport_failure_propagates s r msg (e : exn) (r1 : R)
  (Hinst : inst s = Some r) :
  (res_write msg r = (inl e, r1) ->
   write msg s
   = (inl e, advance [EAcquire; EWrite msg; ERelease] (Some r1) s))
  /\ (res_query msg r = (inl e, r1) ->
      query msg s
      = (inl e, advance [EAcquire; EQuery msg; ERelease] (Some r1) s)).
Proof.
  split; intros H.
  - rewrite (write_run s r msg Hinst), (guarded_run _ _ s r Hinst), H.
    reflexivity.
  - rewrite (query_run s r msg Hinst), (guarded_run _ _ s r Hinst), H.
    reflexivity.
Qed.

(** X9. When the handshake read itself raises, the caller gets the
    transport's exception, not a handshake failure, and the result of the
    write or query that went through is lost; both locks are released. *)
Theorem handshake_read_failure s r msg (e : exn)
  (Hinst : inst s = Some r) (Hon : truthy (handshake s) = true) :
  (forall v r1 r2,
      res_write msg r = (inr v, r1) -> res_read r1 = (inl e, r2) ->
      write msg s
      = (inl e, advance [EAcquire; EWrite msg; EAcquire; ERead;
                         ERelease; ERelease] (Some r2) s))
  /\ (forall v r1 r2,
      res_query msg r = (inr v, r1) -> res_read r1 = (inl e, r2) ->
      query msg s
      = (inl e, advance [EAcquire; EQuery msg; EAcquire; ERead;
                         ERelease; ERelease] (Some r2) s)).
Proof.
  split; intros v r1 r2 H1 H2.
  - rewrite (write_run s r msg Hinst), (guarded_run _ _ s r Hinst), H1.
    cbn [fst snd]. now rewrite Hon, H2.
  - rewrite (query_run s r msg Hinst), (guarded_run _ _ s r Hinst), H1.
    cbn [fst snd]. now rewrite Hon, H2.
Qed.

(** X10. A handshake setting that is true but no string (the attribute
    set to [True] or to a number after construction) equals no text
    read: every write and query whose transport call and read return
    then raises the text read, whatever it is. *)
Theorem handshake_must_be_text s r msg
  (Hinst : inst s = Some r) (Hon : truthy (handshake s) = true)
  (Hkind : forall t, handshake s <> VStr t) :
  (forall v r1 txt r2,
      res_write msg r = (inr v, r1) -> res_read r1 = (inr txt, r2) ->
      fst (write msg s) = inl (HandshakeFailure txt))
  /\ (forall v r1 txt r2,
      res_query msg r = (inr v, r1) -> res_read r1 = (inr txt, r2) ->
      fst (query msg s) = inl (HandshakeFailure txt)).
Proof.
  assert (Hd : forall txt, differs txt (handshake s) = true).
  { intros txt. destruct (handshake s) as [|b|z|t]; try reflexivity.
    now elim (Hkind t). }
  split; intros v r1 txt r2 H1 H2.
  - rewrite (write_run s r msg Hinst), (guarded_run _ _ s r Hinst), H1.
    cbn [fst snd]. rewrite Hon, H2. cbn [fst snd]. now rewrite Hd.
  - rewrite (query_run s r msg Hinst), (guarded_run _ _ s r Hinst), H1.
    cbn [fst snd]. rewrite Hon, H2. cbn [fst snd]. now rewrite Hd.
Qed.

End MoreSessionFacts.

Lemma chain_call_sends_witness :
  let s := Bench.session (VBool false) None (Some Bench.silent) in
  let root := SCPI_getattr s "source" in
  let node := Property_getattr (Property_getattr root "voltage") "level" in
  (inst s = Some Bench.silent
   /\ SCPI_access cpython_names s "source" = AttrProperty root
   /\ chain cpython_names root ["voltage"; "level"] = Some node)
  /\ messages (log (snd (Property_call node [] None s)))
     = [EQuery "SOURCE:VOLTAGE:LEVEL?"]
  /\ messages (log (snd (Property_call node [VInt 5; VBool true] None s)))
     = [EWrite "SOURCE:VOLTAGE:LEVEL 5,True"].
Proof.
  intros s root node.
  destruct (chain_call_sends cpython_names s Bench.silent "source"
              ["voltage"; "level"] root node (VInt 5) [VBool true]
              eq_refl eq_refl eq_refl) as (_ & _ & H1 & H2).
  exact (conj (conj eq_refl (conj eq_refl eq_refl)) (conj H1 H2)).
Defined.

Lemma no_handshake_no_read_witness :
  let s := Bench.session (VStr "") None (Some (Bench.acking "OK")) in
  (inst s = Some (Bench.acking "OK") /\ truthy (handshake s) = false)
  /\ fst (query "MEAS?" s) = inr "0"
  /\ log (snd (query "MEAS?" s)) = [EAcquire; EQuery "MEAS?"; ERelease].
Proof.
  intros s.
  destruct (no_handshake_no_read s (Bench.acking "OK") "MEAS?" eq_refl eq_refl)
    as [_ Hq].
  rewrite Hq. exact (conj (conj eq_refl eq_refl) (conj eq_refl eq_refl)).
Defined.

Lemma transport_failure_propagates_witness :
  let closed := Bench.mkInstrument false true (Some "OK") [] in
  let s := Bench.session (VStr "OK") None (Some closed) in
  (inst s = Some closed
   /\ res_write "OUTP ON" closed = (inl Bench.invalid_session, closed))
  /\ fst (write "OUTP ON" s) = inl Bench.invalid_session
  /\ log (snd (write "OUTP ON" s))
     = [EAcquire; EWrite "OUTP ON"; ERelease].
Proof.
  intros closed s.
  destruct (transport_failure_propagates s closed "OUTP ON"
              Bench.invalid_session closed eq_refl) as [Hw _].
  rewrite (Hw eq_refl).
  exact (conj (conj eq_refl eq_refl) (conj eq_refl eq_refl)).
Defined.

Lemma handshake_read_failure_witness :
  let s := Bench.session (VStr "OK") None (Some Bench.silent) in
  (inst s = Some Bench.silent /\ truthy (handshake s) = true)
  /\ fst (write "OUTP ON" s) = inl (VisaError "VI_ERROR_TMO")
  /\ messages (log (snd (write "OUTP ON" s))) = [EWrite "OUTP ON"].
Proof.
  intros s.
  destruct (handshake_read_failure s Bench.silent "OUTP ON"
              (VisaError "VI_ERROR_TMO") eq_refl eq_refl) as [Hw _].
  rewrite (Hw _ _ _ eq_refl eq_refl).
  exact (conj (conj eq_refl eq_refl) (conj eq_refl eq_refl)).
Defined.

Lemma handshake_must_be_text_witness :
  let s := Bench.session (VBool true) None (Some (Bench.acking "OK")) in
  (inst s = Some (Bench.acking "OK") /\ truthy (handshake s) = true)
  /\ fst (write "OUTP ON" s) = inl (HandshakeFailure "OK").
Proof.
  intros s.
  assert (Hkind : forall t, handshake s <> VStr t) by (intros t; discriminate).
  destruct (handshake_must_be_text s (Bench.acking "OK") "OUTP ON"
              eq_refl eq_refl Hkind) as [Hw _].
  exact (conj (conj eq_refl eq_refl) (Hw _ _ _ _ eq_refl eq_refl)).
Defined.

(** ** Lock discipline and configuration on every path *)

Section Tidy.

Context {R : Type} {V : Visa R}.

Implicit Types (s : SCPI_Instrument R) (d : nat).

Lemma locked_run_app d d1 (l1 l2 : list event) :
  locked_run d l1 = Some d1 ->
  locked_run d (l1 ++ l2)%list = locked_run d1 l2.
Proof.
  revert d. induction l1 as [|e l1 IH]; intros d H.
  - inversion H. reflexivity.
  - destruct e; cbn in H |- *; try (apply IH; exact H);
      try (destruct d; [discriminate | apply IH; exact H]).
Qed.

Lemma tidy_ret {A} d (a : A) : tidy d (ret a).
Proof.
  intros s. split; [reflexivity|]. exists []. cbn. now rewrite app_nil_r.
Qed.

Lemma tidy_raise {A} d (e : exn) : tidy d (raise e : M R A).
Proof.
  intros s. split; [reflexivity|]. exists []. cbn. now rewrite app_nil_r.
Qed.

Lemma tidy_bind {A B} d (m : M R A) (k : A -> M R B) :
  tidy d m -> (forall a, tidy d (k a)) -> tidy d (bind m k).
Proof.
  intros Hm Hk s. unfold bind.
  destruct (Hm s) as (Hc & ext & Hl & Hr).
  destruct (m s) as [[e|a] s1]; cbn [snd] in *.
  - split; [exact Hc|]. now exists ext.
  - destruct (Hk a s1) as (Hc2 & ext2 & Hl2 & Hr2).
    split; [now rewrite Hc2|]. exists (ext ++ ext2)%list.
    split; [rewrite Hl2, Hl; now rewrite app_assoc|].
    now rewrite (locked_run_app d d ext ext2 Hr).
Qed.

Lemma tidy_with_lock {A} d (body : M R A) :
  tidy (S d) body -> tidy d (with_lock body).
Proof.
  intros Hb s. unfold with_lock.
  destruct (Hb (emit EAcquire s)) as (Hc & ext & Hl & Hr).
  destruct (body (emit EAcquire s)) as [res s1]; cbn [snd] in *.
  split; [exact Hc|]. exists (EAcquire :: ext ++ [ERelease])%list.
  split.
  - cbn [emit log]. rewrite Hl. cbn [emit log].
    rewrite <- !app_assoc. reflexivity.
  - cbn [locked_run]. now rewrite (locked_run_app (S d) (S d) ext _ Hr).
Qed.

Lemma tidy_on_inst {A} d (e : event) (op : R -> result A * R) :
  locked_run d [e] = Some d -> tidy d (on_inst e op).
Proof.
  intros He s. unfold on_inst. destruct (inst s) as [r|].
  - destruct (op r) as [res r1]. split; [reflexivity|]. now exists [e].
  - split; [reflexivity|]. exists []. cbn. now rewrite app_nil_r.
Qed.

Lemma tidy_read d : tidy d read.
Proof.
  intros s. unfold read. destruct (inst s) as [r|] eqn:Hi.
  - now apply tidy_with_lock, tidy_on_inst.
  - apply tidy_raise.
Qed.

Lemma tidy_handshake d : tidy d _handle_handshake.
Proof.
  intros s. unfold _handle_handshake.
  destruct (truthy (handshake s)); [|apply tidy_ret].
  apply tidy_bind; [apply tidy_read|]. intros hs s1.
  destruct (differs hs (handshake s1)); [apply tidy_raise | apply tidy_ret].
Qed.

Lemma tidy_guarded {A} d (e : event) (op : R -> result A * R) :
  locked_run (S d) [e] = Some (S d) ->
  tidy d (with_lock (resp <- on_inst e op ;; _handle_handshake ;;; ret resp)).
Proof.
  intros He. apply tidy_with_lock, tidy_bind; [now apply tidy_on_inst|].
  intros a. apply tidy_bind; [apply tidy_handshake|]. intros _. apply tidy_ret.
Qed.

Lemma tidy_write d msg : tidy d (write msg).
Proof.
  intros s. unfold write. destruct (inst s) as [r|].
  - now apply tidy_guarded.
  - apply tidy_raise.
Qed.

Lemma tidy_query d msg : tidy d (query msg).
Proof.
  intros s. unfold query. destruct (inst s) as [r|].
  - now apply tidy_guarded.
  - apply tidy_raise.
Qed.

Lemma tidy_disconnect d : tidy d disconnect.
Proof.
  intros s. unfold disconnect. destruct (inst s) as [r|].
  - now apply tidy_on_inst.
  - apply tidy_ret.
Qed.

Lemma tidy_apply_params d (ps : list (string * pyval)) :
  tidy d (apply_params ps).
Proof.
  induction ps as [|[param val] ps IH]; [apply tidy_ret|].
  cbn [apply_params]. apply tidy_bind; [now apply tidy_on_inst|].
  intros _. exact IH.
Qed.

Lemma tidy_open_phase d : tidy d open_phase.
Proof.
  intros s. unfold open_phase. destruct (inst s) as [r|].
  - now apply tidy_on_inst.
  - set (rd := match rid s with Some x => x | None => "" end).
    destruct (open_resource rd) as [e|h].
    + split; [reflexivity|]. now exists [EOpenResource rd].
    + destruct (tidy_apply_params d (resource_params s)
                  (set_inst (Some h) (emit (EOpenResource rd) s)))
        as (Hc & ext & Hl & Hr).
      split; [exact Hc|]. exists (EOpenResource rd :: ext).
      split; [rewrite Hl; cbn; now rewrite <- app_assoc | exact Hr].
Qed.

Lemma tidy_connect d (explicit_remote : option string) :
  tidy d (connect explicit_remote).
Proof.
  intros s. unfold connect. destruct (no_rid s); [apply tidy_raise|].
  apply tidy_bind; [apply tidy_open_phase|]. intros _.
  destruct explicit_remote as [msg|].
  - apply tidy_bind; [apply tidy_write | intros _; apply tidy_ret].
  - apply tidy_bind; [apply tidy_query | intros _; apply tidy_ret].
Qed.

Lemma tidy_call d (p : Property) (vs : list pyval) (q : option bool) :
  tidy d (Property_call p vs q).
Proof.
  unfold Property_call.
  destruct (match q with Some b => b | None => _ end).
  - apply tidy_bind; [apply tidy_query | intros x; apply tidy_ret].
  - apply tidy_bind; [apply tidy_write | intros x; apply tidy_ret].
Qed.

Lemma tidy_trace {A} d (m : M R A) s :
  tidy d m -> locked_run d (op_trace m s) = Some d.
Proof.
  intros H. destruct (H s) as (_ & ext & Hl & Hr).
  unfold op_trace. rewrite Hl, skipn_app, Nat.sub_diag, skipn_all. exact Hr.
Qed.

(** X11. On every path through [write], [read], [query], [connect],
    [disconnect] and a node call, failures included, the lock operations
    the method adds pair up (no release of a free lock, nothing held at
    the end) and every write, read and query on the transport is made
    with the lock held. *)
Theorem lock_always_released s msg (er : option string) (p : Property)
  (vs : list pyval) (q : option bool) :
  locked_run 0 (op_trace (write msg) s) = Some 0
  /\ locked_run 0 (op_trace read s) = Some 0
  /\ locked_run 0 (op_trace (query msg) s) = Some 0
  /\ locked_run 0 (op_trace (connect er) s) = Some 0
  /\ locked_run 0 (op_trace disconnect s) = Some 0
  /\ locked_run 0 (op_trace (Property_call p vs q) s) = Some 0.
Proof.
  repeat split; apply tidy_trace;
    auto using tidy_write, tidy_read, tidy_query, tidy_connect,
      tidy_disconnect, tidy_call.
Qed.

(** X12. The same methods never touch the configuration: port, resource
    id, port matching, resource parameters, separator, prefix option and
    handshake setting are after the call what they were before, on every
    path. *)
Theorem io_keeps_configuration s msg (er : option string) (p : Property)
  (vs : list pyval) (q : option bool) :
  config (snd (write msg s)) = config s
  /\ config (snd (read s)) = config s
  /\ config (snd (query msg s)) = config s
  /\ config (snd (connect er s)) = config s
  /\ config (snd (disconnect s)) = config s
  /\ config (snd (Property_call p vs q s)) = config s.
Proof.
  repeat split.
  - exact (proj1 (tidy_write 0 msg s)).
  - exact (proj1 (tidy_read 0 s)).
  - exact (proj1 (tidy_query 0 msg s)).
  - exact (proj1 (tidy_connect 0 er s)).
  - exact (proj1 (tidy_disconnect 0 s)).
  - exact (proj1 (tidy_call 0 p vs q s)).
Qed.

End Tidy.

(** ** Connecting *)

Section MoreConnectFacts.

Context {R : Type} {V : Visa R}.

Implicit Types (s : SCPI_Instrument R) (r : R).

Lemma advance_nil s r : inst s = Some r -> advance [] (Some r) s = s.
Proof.
  destruct s; unfold advance; cbn. intros ->. now rewrite app_nil_r.
Qed.

(** What [apply_params] does on a session that holds a handle: the
    [setattr] calls in the order of the parameters, up to and including
    the first that raises. *)
Lemma apply_params_run (ps : list (string * pyval)) s r :
  inst s = Some r ->
  exists k r',
    snd (apply_params ps s)
    = advance (map setattr_event (firstn k ps)) (Some r') s
    /\ match fst (apply_params ps s) with
       | inr _ => k = List.length ps
       | inl _ => 0 < k <= List.length ps
       end.
Proof.
  revert s r. induction ps as [|[param val] ps IH]; intros s r Hi.
  - exists 0, r. cbn. split; [now rewrite advance_nil | reflexivity].
  - cbn [apply_params]. unfold bind, on_inst. rewrite Hi.
    destruct (res_setattr param val r) as [[e|[]] r1].
    + exists 1, r1. cbn. split; [reflexivity | lia].
    + destruct (IH (set_inst (Some r1) (emit (ESetattr param val) s)) r1 eq_refl)
        as (k & r' & Hs & Hk).
      exists (S k), r'. split.
      * rewrite Hs. unfold advance, set_inst, emit; cbn.
        now rewrite <- app_assoc.
      * destruct (fst (apply_params ps _)); cbn [List.length]; lia.
Qed.

(** X13. Without a resource id, [None] or the empty string, [connect]
    raises its [RuntimeError] before anything else: nothing is opened or
    sent, a handle the session holds is left alone, and the session is
    unchanged. *)
Theorem connect_needs_rid s (er : option string)
  (Hrid : rid s = None \/ rid s = Some "") :
  connect er s
  = (inl (RuntimeError "Can not connect. No resource id provided."), s).
Proof.
  unfold connect, no_rid. now destruct Hrid as [-> | ->].
Qed.

(** X14. The first [connect] of a session opens the resource named by
    the resource id and then sets the resource parameters, one [setattr]
    each, in the order of the mapping.  A later [connect], the session
    holding a handle, reopens that handle and does neither. *)
Theorem connect_opens_then_configures s :
  (forall rd, inst s = None -> rid s = Some rd ->
     fst (open_phase s) = inr tt ->
     exists h, open_resource rd = inr h
       /\ op_trace open_phase s
          = EOpenResource rd :: map setattr_event (resource_params s))
  /\ (forall r, inst s = Some r ->
        open_phase s
        = (fst (res_open r), advance [EOpen] (Some (snd (res_open r))) s)).
Proof.
  split.
  - intros rd Hi Hr Hok. unfold op_trace, open_phase in *.
    rewrite Hi, Hr in *.
    destruct (open_resource rd) as [e|h]; [discriminate|]. exists h.
    split; [reflexivity|].
    destruct (apply_params_run (resource_params s)
                (set_inst (Some h) (emit (EOpenResource rd) s)) h eq_refl)
      as (k & r' & Hs & Hk).
    rewrite Hok in Hk. subst k. rewrite Hs, firstn_all.
    cbn [advance log set_inst emit]. rewrite <- app_assoc.
    rewrite skipn_app, Nat.sub_diag, skipn_all. reflexivity.
  - intros r Hi. unfold open_phase, on_inst. rewrite Hi.
    now destruct (res_open r).
Qed.

(** X15. Failures of the first [connect]: when [open_resource] raises,
    the session still has no handle; when a [setattr] raises, [connect]
    raises it too, the remaining parameters are skipped, nothing is sent,
    and the session is left holding the handle just opened, on which no
    close was called. *)
Theorem connect_failure_keeps_handle s (er : option string) (rd : string)
  (Hinst : inst s = None) (Hrid : rid s = Some rd) (Hne : rd <> "") :
  (forall e, open_resource rd = inl e ->
     connect er s = (inl e, advance [EOpenResource rd] None s))
  /\ (forall h e, open_resource rd = inr h ->
        fst (open_phase s) = inl e ->
        exists k h',
          0 < k <= List.length (resource_params s)
          /\ connect er s
             = (inl e,
                advance (EOpenResource rd
                         :: map setattr_event (firstn k (resource_params s)))
                        (Some h') s)).
Proof.
  assert (Hno : no_rid s = false).
  { unfold no_rid. rewrite Hrid. now apply String.eqb_neq. }
  split.
  - intros e He. unfold connect. rewrite Hno. unfold bind, open_phase.
    rewrite Hinst, Hrid, He. unfold advance, emit. now rewrite Hinst.
  - intros h e Hh Hfail. unfold connect. rewrite Hno. unfold bind.
    unfold open_phase in *. rewrite Hinst, Hrid, Hh in *.
    destruct (apply_params_run (resource_params s)
                (set_inst (Some h) (emit (EOpenResource rd) s)) h eq_refl)
      as (k & h' & Hs & Hk).
    destruct (apply_params (resource_params s) _) as [[e'|[]] s1];
      cbn [fst snd] in *; [|discriminate].
    inversion Hfail; subst e'. exists k, h'. split; [exact Hk|].
    rewrite Hs. unfold advance, set_inst, emit; cbn.
    now rewrite <- app_assoc.
Qed.

(** X16. [disconnect] closes the handle and keeps it: the session still
    holds a handle afterwards, so a later write does not raise the
    not-connected error but goes to the transport, on the closed
    resource. *)
Theorem disconnect_keeps_handle s r (msg : string) (Hinst : inst s = Some r) :
  disconnect s
  = (fst (res_close r), advance [EClose] (Some (snd (res_close r))) s)
  /\ inst (snd (disconnect s)) = Some (snd (res_close r))
  /\ messages (log (snd (write msg (snd (disconnect s)))))
     = (messages (log s) ++ [EWrite msg])%list.
Proof.
  assert (Hd : disconnect s
               = (fst (res_close r),
                  advance [EClose] (Some (snd (res_close r))) s)).
  { unfold disconnect, on_inst. rewrite Hinst. now destruct (res_close r). }
  rewrite Hd. cbn [snd]. split; [reflexivity|]. split; [reflexivity|].
  set (s1 := advance [EClose] (Some (snd (res_close r))) s).
  assert (H1 : inst s1 = Some (snd (res_close r))) by reflexivity.
  rewrite (write_run s1 _ msg H1).
  rewrite (guarded_messages (EWrite msg) (res_write msg) s1 _ H1 eq_refl).
  unfold s1. rewrite log_advance, messages_app. cbn. now rewrite app_nil_r.
Qed.

End MoreConnectFacts.

Lemma connect_needs_rid_witness :
  let s := Bench.session (VBool false) (Some "") (Some Bench.silent) in
  (rid s = None \/ rid s = Some "")
  /\ connect None s
     = (inl (RuntimeError "Can not connect. No resource id provided."), s).
Proof.
  intros s.
  assert (H : rid s = None \/ rid s = Some "") by (right; reflexivity).
  exact (conj H (connect_needs_rid s None H)).
Defined.

Lemma connect_opens_then_configures_witness :
  let s := mkSession 0 "" None None true (Some "USB0::1::INSTR")
             [("timeout", VInt 2000); ("read_termination", VStr "CR")]
             "," false (VBool false) [] in
  (inst s = None /\ rid s = Some "USB0::1::INSTR"
   /\ fst (open_phase s) = inr tt)
  /\ op_trace open_phase s
     = [EOpenResource "USB0::1::INSTR"; ESetattr "timeout" (VInt 2000);
        ESetattr "read_termination" (VStr "CR")].
Proof.
  intros s.
  destruct (connect_opens_then_configures s) as [H _].
  destruct (H "USB0::1::INSTR" eq_refl eq_refl eq_refl) as (h & _ & Ht).
  exact (conj (conj eq_refl (conj eq_refl eq_refl)) Ht).
Defined.

Lemma disconnect_keeps_handle_witness :
  let s := Bench.session (VBool false) None (Some Bench.silent) in
  inst s = Some Bench.silent
  /\ connected (snd (disconnect s)) = false
  /\ fst (write "OUTP ON" (snd (disconnect s))) = inl Bench.invalid_session
  /\ messages (log (snd (write "OUTP ON" (snd (disconnect s)))))
     = [EWrite "OUTP ON"].
Proof.
  intros s.
  destruct (disconnect_keeps_handle s Bench.silent "OUTP ON" eq_refl)
    as (_ & _ & H).
  exact (conj eq_refl (conj eq_refl (conj eq_refl H))).
Defined.

Lemma connect_failure_keeps_handle_witness :
  let strict := StrictBench.strict_visa in
  let s : SCPI_Instrument StrictBench.device :=
    mkSession 0 "" None None true (Some "USB0::1::INSTR")
      [("read_termination", VStr "CR"); ("timeout", VStr "2 s");
       ("baud_rate", VInt 9600)]
      "," false (VBool false) [] in
  (inst s = None /\ rid s = Some "USB0::1::INSTR" /\ "USB0::1::INSTR" <> "")
  /\ fst (connect None s) = inl (TypeError "timeout must be a number")
  /\ log (snd (connect None s))
     = [EOpenResource "USB0::1::INSTR"; ESetattr "read_termination" (VStr "CR");
        ESetattr "timeout" (VStr "2 s")]
  /\ connected (snd (connect None s)) = true.
Proof.
  intros strict s.
  assert (Hne : "USB0::1::INSTR" <> "") by discriminate.
  destruct (connect_failure_keeps_handle s None "USB0::1::INSTR"
              eq_refl eq_refl Hne) as [_ H].
  destruct (H (StrictBench.Device (Bench.mkInstrument true true None []))
              (TypeError "timeout must be a number") eq_refl eq_refl)
    as (k & h' & Hk & Hc).
  exact (conj (conj eq_refl (conj eq_refl Hne))
           (conj (f_equal fst Hc) (conj eq_refl eq_refl))).
Defined.

(** ** Ports and patterns *)

Lemma prefix_app_l (p s t : string) :
  String.prefix p s = true -> String.prefix p (s ++ t) = true.
Proof.
  revert s. induction p as [|a p IH]; intros s H; [now destruct (s ++ t)|].
  destruct s as [|b s]; [discriminate|]. cbn in H |- *.
  destruct (ascii_dec a b); [now apply IH | discriminate].
Qed.

Lemma substring_full (b : string) : substring 0 (String.length b) b = b.
Proof. induction b as [|c b IH]; cbn; [reflexivity | now rewrite IH]. Qed.

Lemma substring_app_r (a b : string) :
  substring (String.length a) (String.length b) (a ++ b) = b.
Proof. induction a as [|c a IH]; cbn; [apply substring_full | exact IH]. Qed.

Lemma endswith_app (a b : string) : PyStr.endswith (a ++ b) b = true.
Proof.
  unfold PyStr.endswith. rewrite length_append.
  replace (String.length a + String.length b - String.length b)
    with (String.length a) by lia.
  rewrite substring_app_r, String.eqb_refl, andb_true_r.
  apply Nat.leb_le. lia.
Qed.

(** X21. The serial pattern of the Posix variant always has the form
    [ASRL...::INSTR], and a port already in that form is its own pattern:
    building the pattern of a pattern changes nothing. *)
Theorem serial_pattern_normal_form (port : string) :
  PyStr.startswith (serial_pattern_linux port) "ASRL" = true
  /\ PyStr.endswith (serial_pattern_linux port) "::INSTR" = true
  /\ serial_pattern_linux (serial_pattern_linux port)
     = serial_pattern_linux port
  /\ (PyStr.startswith port "ASRL" = true ->
      PyStr.endswith port "::INSTR" = true ->
      serial_pattern_linux port = port).
Proof.
  assert (Hfix : forall p, PyStr.startswith p "ASRL" = true ->
                           PyStr.endswith p "::INSTR" = true ->
                           serial_pattern_linux p = p).
  { intros p H1 H2. unfold serial_pattern_linux. rewrite H1. cbn [negb].
    now rewrite H2. }
  assert (Hs : PyStr.startswith (serial_pattern_linux port) "ASRL" = true).
  { unfold serial_pattern_linux, PyStr.startswith.
    set (p1 := if negb (String.prefix "ASRL" port) then _ else _).
    assert (H1 : String.prefix "ASRL" p1 = true).
    { unfold p1. destruct (String.prefix "ASRL" port) eqn:E; cbn [negb];
        [exact E|].
      destruct (negb (String.prefix "/" port)); cbn; now destruct port. }
    destruct (negb (PyStr.endswith p1 "::INSTR"));
      [now apply prefix_app_l | exact H1]. }
  assert (He : PyStr.endswith (serial_pattern_linux port) "::INSTR" = true).
  { unfold serial_pattern_linux.
    set (p1 := if negb (PyStr.startswith port "ASRL") then _ else _).
    destruct (PyStr.endswith p1 "::INSTR") eqn:E; cbn [negb];
      [exact E | apply endswith_app]. }
  split; [exact Hs|]. split; [exact He|].
  split; [exact (Hfix _ Hs He) | exact (Hfix port)].
Qed.

(** X22. The pattern of a bus-style port always ends, case ignored, in
    INSTR or SOCKET: the port itself when it ends so, else the port
    followed by a wildcard field and [::INSTR]. *)
Theorem bus_pattern_suffix (port : string) :
  let pattern := bus_pattern port (PyStr.upper port) in
  (PyStr.endswith (PyStr.upper pattern) "INSTR"
   || PyStr.endswith (PyStr.upper pattern) "SOCKET" = true)
  /\ (PyStr.endswith (PyStr.upper port) "INSTR"
      || PyStr.endswith (PyStr.upper port) "SOCKET" = true ->
      pattern = port)
  /\ (PyStr.endswith (PyStr.upper port) "INSTR"
      || PyStr.endswith (PyStr.upper port) "SOCKET" = false ->
      pattern = port ++ "::.*::INSTR").
Proof.
  intros pattern. unfold pattern, bus_pattern.
  destruct (PyStr.endswith (PyStr.upper port) "INSTR"
            || PyStr.endswith (PyStr.upper port) "SOCKET") eqn:E.
  - split; [exact E|]. split; [reflexivity | discriminate].
  - split; [|split; [discriminate | reflexivity]].
    rewrite upper_app.
    change (PyStr.upper "::.*::INSTR") with ("::.*::" ++ "INSTR").
    now rewrite <- append_assoc, endswith_app.
Qed.

Lemma replace_lacks (s : string) :
  lacks "C" s = true -> PyStr.replace_from "COM" "" 0 s = s.
Proof.
  induction s as [|c s IH]; [reflexivity|]. cbn [lacks]. intros H.
  apply andb_prop in H. destruct H as [Hc Hs].
  cbn [PyStr.replace_from String.prefix].
  destruct (ascii_dec "C" c) as [<-|_]; [discriminate Hc|].
  now rewrite (IH Hs).
Qed.

Ltac decide_chars :=
  repeat match goal with
    | |- context [ascii_dec ?a ?b] =>
        let E := fresh "E" in
        destruct (ascii_dec a b) as [E|E];
        [try discriminate E | try (now elim E)]
    end.

Lemma com_prefix_only (x : string) :
  PyStr.startswith_any ("COM" ++ x) ["USB"; "GPIB"; "TCPIP"] = false
  /\ PyStr.startswith ("COM" ++ x) "COM" = true.
Proof.
  split; [|apply prefix_app].
  unfold PyStr.startswith_any, existsb, PyStr.startswith.
  cbn [String.prefix append]. decide_chars. reflexivity.
Qed.

Lemma replace_com_head (n : string) :
  lacks "C" n = true -> PyStr.replace ("COM" ++ n) "COM" "" = n.
Proof.
  intros Hn. unfold PyStr.replace.
  change ("COM" ++ n) with (String "C" (String "O" (String "M" n))).
  cbn [PyStr.replace_from].
  change (String "C" (String "O" (String "M" n))) with ("COM" ++ n).
  rewrite prefix_app. cbn [String.length Nat.sub PyStr.replace_from append].
  now apply replace_lacks.
Qed.

(** X23. On Windows the COM token is taken out of the serial pattern
    only where it is written in capitals: [COM] followed by a number
    gives the pattern for that number, while the same port in lower case,
    which passes the prefix test, keeps its [com] inside the pattern. *)
Theorem com_token_in_capitals_only (n : string) (Hn : lacks "C" n = true) :
  windows_pattern ("COM" ++ n) = inr ("ASRL((?:COM)?" ++ n ++ ")::INSTR")
  /\ windows_pattern ("com" ++ n)
     = inr ("ASRL((?:COM)?" ++ "com" ++ n ++ ")::INSTR")
  /\ PyStr.startswith_any (PyStr.upper ("com" ++ n))
       ["COM"; "USB"; "GPIB"; "TCPIP"] = true.
Proof.
  assert (Hup : PyStr.upper ("COM" ++ n) = "COM" ++ PyStr.upper n)
    by (now rewrite upper_app).
  assert (Hlo : PyStr.upper ("com" ++ n) = "COM" ++ PyStr.upper n)
    by (now rewrite upper_app).
  destruct (com_prefix_only (PyStr.upper n)) as [Hbus Hcom].
  split; [|split].
  - unfold windows_pattern. cbn [tl]. rewrite Hup, Hbus, Hcom.
    now rewrite (replace_com_head n Hn).
  - unfold windows_pattern. cbn [tl]. rewrite Hlo, Hbus, Hcom.
    unfold PyStr.replace. rewrite replace_lacks; [reflexivity|].
    cbn [lacks append]. exact Hn.
  - rewrite Hlo. unfold PyStr.startswith_any. cbn [existsb].
    now rewrite Hcom.
Qed.

Lemma com_token_in_capitals_only_witness :
  lacks "C" "3" = true
  /\ windows_pattern "COM3" = inr "ASRL((?:COM)?3)::INSTR"
  /\ windows_pattern "com3" = inr "ASRL((?:COM)?com3)::INSTR".
Proof.
  destruct (com_token_in_capitals_only "3" eq_refl) as (H1 & H2 & _).
  exact (conj eq_refl (conj H1 H2)).
Defined.

(** ** Port assignment *)

Section MorePortFacts.

Context {R : Type} {V : Visa R}.

Implicit Types (s : SCPI_Instrument R) (re : matcher) (env : Env).

Lemma match_resource_state re env (pattern : string) s :
  snd (_match_resource re env pattern s) = s.
Proof.
  unfold _match_resource.
  destruct (match_each re pattern (list_resources env)) as [e|ms];
    [reflexivity|].
  destruct (not_none ms) as [|g [|g' l]]; reflexivity.
Qed.

Lemma windows_pattern_total (port : string) :
  PyStr.startswith_any (PyStr.upper port) ["COM"; "USB"; "GPIB"; "TCPIP"]
  = true ->
  exists pattern, windows_pattern port = inr pattern.
Proof.
  unfold windows_pattern, PyStr.startswith_any. cbn [existsb tl].
  destruct (PyStr.startswith (PyStr.upper port) "COM"); cbn [orb].
  - intros _.
    destruct (PyStr.startswith (PyStr.upper port) "USB"
              || (PyStr.startswith (PyStr.upper port) "GPIB"
                  || (PyStr.startswith (PyStr.upper port) "TCPIP" || false)));
      eauto.
  - intros ->. eauto.
Qed.

(** X17. With port matching off the resource list and [re] play no
    part: the outcome of a port assignment is the same whatever is
    visible and whatever the matcher would say, and the resource id is
    the pattern itself.  On a host other than Windows no port is then
    refused. *)
Theorem unmatched_port_is_its_pattern s re re' env env' (port : string)
  (Hoff : port_match s = false) (Hsys : system env = system env') :
  set_port re env (Some port) s = set_port re' env' (Some port) s
  /\ (forall pattern,
        built_pattern env port = inr pattern ->
        fst (disconnect_if_inst s) = inr tt ->
        set_port re env (Some port) s
        = (inr tt,
           set_rid (Some pattern)
             (set_port_field (Some port) (snd (disconnect_if_inst s)))))
  /\ ((system env =? "Windows") = false ->
      built_pattern env port = inr (linux_pattern port)).
Proof.
  split; [|split].
  - unfold set_port. rewrite Hoff, Hsys. reflexivity.
  - intros pattern Hp Hd. unfold set_port, built_pattern in *. rewrite Hoff.
    destruct (system env =? "Windows").
    + unfold _set_port_windows.
      destruct (negb (PyStr.startswith_any _ _)); [discriminate|].
      rewrite Hp. unfold bind, ret.
      now destruct (disconnect_if_inst s) as [[e|[]] s'].
    + inversion Hp; subst pattern. unfold _set_port_linux, bind, ret.
      now destruct (disconnect_if_inst s) as [[e|[]] s'].
  - intros Hl. unfold built_pattern. now rewrite Hl.
Qed.

(** X18. On Windows a port whose name starts, case ignored, with none of
    COM, USB, GPIB, TCPIP is refused before anything happens: the session
    is unchanged, a held handle is not closed.  For every other port a
    pattern is built: the second check of the prefix in the source never
    fires. *)
Theorem windows_refuses_before_effect s re env (port : string)
  (Hwin : system env = "Windows") :
  (PyStr.startswith_any (PyStr.upper port) ["COM"; "USB"; "GPIB"; "TCPIP"]
   = false ->
   set_port re env (Some port) s = (inl UnsupportedPort, s))
  /\ (PyStr.startswith_any (PyStr.upper port) ["COM"; "USB"; "GPIB"; "TCPIP"]
      = true ->
      exists pattern, windows_pattern port = inr pattern
                      /\ built_pattern env port = inr pattern).
Proof.
  split.
  - intros H. unfold set_port, _set_port_windows. now rewrite Hwin, H.
  - intros H. destruct (windows_pattern_total port H) as [pattern Hp].
    exists pattern. split; [exact Hp|].
    unfold built_pattern. now rewrite Hwin, H.
Qed.

(** X19. Assigning a port to a session that holds a handle closes the
    handle first, and that close is the only transport call of the
    assignment; when the close raises, neither the port nor the resource
    id is changed.  Assigning [None] clears both without any call. *)
Theorem port_assignment_closes_handle s r re env (port pattern : string)
  (Hinst : inst s = Some r) (Hp : built_pattern env port = inr pattern) :
  log (snd (set_port re env (Some port) s)) = (log s ++ [EClose])%list
  /\ inst (snd (set_port re env (Some port) s)) = Some (snd (res_close r))
  /\ (forall e, fst (res_close r) = inl e ->
        set_port re env (Some port) s
        = (inl e, advance [EClose] (Some (snd (res_close r))) s))
  /\ set_port re env None s = (inr tt, set_rid None (set_port_field None s)).
Proof.
  assert (Hd : disconnect_if_inst s
               = (fst (res_close r),
                  advance [EClose] (Some (snd (res_close r))) s)).
  { unfold disconnect_if_inst, disconnect, on_inst. rewrite Hinst.
    now destruct (res_close r). }
  assert (Hrun : set_port re env (Some port) s
                 = match fst (res_close r) with
                   | inl e => (inl e, advance [EClose] (Some (snd (res_close r))) s)
                   | inr _ =>
                       let s0 := set_port_field (Some port)
                                   (advance [EClose] (Some (snd (res_close r))) s) in
                       (if port_match s
                        then (match _match_resource re env pattern s0 with
                              | (inl e, s1) => (inl e, s1)
                              | (inr g, s1) => (inr tt, set_rid (Some g) s1)
                              end)
                        else (inr tt, set_rid (Some pattern) s0))
                   end).
  { unfold set_port, built_pattern in *.
    destruct (system env =? "Windows").
    - unfold _set_port_windows.
      destruct (negb (PyStr.startswith_any _ _)); [discriminate|].
      rewrite Hp. unfold bind, ret. rewrite Hd.
      destruct (fst (res_close r)) as [e|[]]; [reflexivity|].
      destruct (port_match s); [|reflexivity].
      now destruct (_match_resource re env pattern _) as [[e|g] s1].
    - inversion Hp; subst pattern. unfold _set_port_linux, bind, ret.
      rewrite Hd. destruct (fst (res_close r)) as [e|[]]; [reflexivity|].
      destruct (port_match s); [|reflexivity].
      now destruct (_match_resource re env (linux_pattern port) _)
        as [[e|g] s1]. }
  split; [|split; [|split]].
  - rewrite Hrun. destruct (fst (res_close r)) as [e|[]]; [reflexivity|].
    cbv zeta. destruct (port_match s); [|reflexivity].
    pose proof (match_resource_state re env pattern
                  (set_port_field (Some port)
                     (advance [EClose] (Some (snd (res_close r))) s))) as Hs.
    destruct (_match_resource re env pattern _) as [[e|g] s1];
      cbn [snd] in *; subst s1; reflexivity.
  - rewrite Hrun. destruct (fst (res_close r)) as [e|[]]; [reflexivity|].
    cbv zeta. destruct (port_match s); [|reflexivity].
    pose proof (match_resource_state re env pattern
                  (set_port_field (Some port)
                     (advance [EClose] (Some (snd (res_close r))) s))) as Hs.
    destruct (_match_resource re env pattern _) as [[e|g] s1];
      cbn [snd] in *; subst s1; reflexivity.
  - intros e He. rewrite Hrun. now rewrite He.
  - reflexivity.
Qed.

Lemma not_none_origin re (pattern g : string) (rs : list string)
  (ms : list (option string)) :
  match_each re pattern rs = inr ms -> In g (not_none ms) ->
  exists res, In res rs /\ re pattern res = inr (Some g).
Proof.
  revert ms. induction rs as [|res rs IH]; intros ms H Hin.
  - inversion H; subst. contradiction.
  - cbn in H. destruct (re pattern res) as [e|m] eqn:Hre; [discriminate|].
    destruct (match_each re pattern rs) as [e|ms']; [discriminate|].
    inversion H; subst ms. destruct m as [g'|]; cbn in Hin.
    + destruct Hin as [->|Hin]; [exists res; split; [now left | exact Hre]|].
      destruct (IH ms' eq_refl Hin) as (x & Hx & Hrx).
      exists x. split; [now right | exact Hrx].
    + destruct (IH ms' eq_refl Hin) as (x & Hx & Hrx).
      exists x. split; [now right | exact Hrx].
Qed.

(** X20. With port matching on and exactly one resource matched, the
    assignment succeeds and stores the port and, as resource id, the
    text matched in that resource.  When the matches [re] reports always
    cover the whole text, the id stored is an entry of the visible
    list. *)
Theorem unique_match_resolves s re env (pname pattern g : string)
  (ms : list (option string))
  (Hon : port_match s = true)
  (Hd : fst (disconnect_if_inst s) = inr tt)
  (Hp : built_pattern env pname = inr pattern)
  (Hms : match_each re pattern (list_resources env) = inr ms)
  (Hone : not_none ms = [g]) :
  fst (set_port re env (Some pname) s) = inr tt
  /\ port (snd (set_port re env (Some pname) s)) = Some pname
  /\ rid (snd (set_port re env (Some pname) s)) = Some g
  /\ (exists res, In res (list_resources env)
                  /\ re pattern res = inr (Some g))
  /\ ((forall res g', re pattern res = inr (Some g') -> g' = res) ->
      In g (list_resources env)).
Proof.
  pose proof (set_port_outcome re env pname pattern ms s Hon Hd Hp Hms) as H.
  cbv zeta in H. rewrite Hone in H. rewrite H. cbn [fst snd].
  assert (Hor : exists res, In res (list_resources env)
                            /\ re pattern res = inr (Some g)).
  { apply (not_none_origin re pattern g _ ms Hms). rewrite Hone. now left. }
  repeat split; [exact Hor|].
  intros Hwhole. destruct Hor as (res & Hin & Hre).
  now rewrite (Hwhole res g Hre).
Qed.

(** X24. With port matching on and nothing visible, every assignment of
    a port for which a pattern is built fails with the not-found error,
    whatever the matcher: [re] is not even called.  The port is stored,
    the resource id is not. *)
Theorem nothing_visible_nothing_found s re env (port pattern : string)
  (Hon : port_match s = true)
  (Hd : fst (disconnect_if_inst s) = inr tt)
  (Hp : built_pattern env port = inr pattern)
  (Hempty : list_resources env = []) :
  set_port re env (Some port) s
  = (inl (ResourceNotFound pattern),
     set_port_field (Some port) (snd (disconnect_if_inst s))).
Proof.
  assert (Hms : match_each re pattern (list_resources env) = inr [])
    by now rewrite Hempty.
  exact (set_port_outcome re env port pattern [] s Hon Hd Hp Hms).
Qed.

Lemma match_each_raises re (pattern : string) (l1 l2 : list string)
  (res : string) (e : exn) :
  (forall x, In x l1 -> exists m, re pattern x = inr m) ->
  re pattern res = inl e ->
  match_each re pattern (l1 ++ res :: l2) = inl e.
Proof.
  intros Hl1 He. induction l1 as [|x l1 IH]; cbn.
  - now rewrite He.
  - destruct (Hl1 x (or_introl eq_refl)) as [m Hm]. rewrite Hm.
    rewrite IH; [reflexivity|]. intros y Hy. apply Hl1. now right.
Qed.

(** X25. An exception of [re] (a port that is no valid pattern) is not
    turned into a resolution error: the first resource on which the
    match raises ends the assignment with that exception, matches found
    before it notwithstanding; the port is stored and the resource id is
    left as it was. *)
Theorem matcher_error_propagates s re env (port pattern res : string)
  (l1 l2 : list string) (e : exn)
  (Hon : port_match s = true)
  (Hd : fst (disconnect_if_inst s) = inr tt)
  (Hp : built_pattern env port = inr pattern)
  (Hlist : list_resources env = (l1 ++ res :: l2)%list)
  (Hl1 : forall x, In x l1 -> exists m, re pattern x = inr m)
  (He : re pattern res = inl e) :
  set_port re env (Some port) s
  = (inl e, set_port_field (Some port) (snd (disconnect_if_inst s)))
  /\ rid (snd (set_port re env (Some port) s)) = rid s.
Proof.
  assert (H : set_port re env (Some port) s
              = (inl e, set_port_field (Some port) (snd (disconnect_if_inst s)))).
  { rewrite (set_port_matching re env port pattern s Hon Hd Hp). cbv zeta.
    unfold _match_resource.
    now rewrite Hlist, (match_each_raises re pattern l1 l2 res e Hl1 He). }
  split; [exact H|]. rewrite H. cbn [snd]. apply disconnect_if_inst_rid.
Qed.

End MorePortFacts.

Lemma unmatched_port_is_its_pattern_witness :
  let s : SCPI_Instrument Bench.instrument :=
    mkSession 0 "" None None false None [] "," false (VBool false) [] in
  let env := mkEnv "Linux" [] in
  let env' := mkEnv "Linux" ["ASRL/dev/ttyUSB0::INSTR"; "ASRL/dev/ttyUSB0::INSTR"] in
  (port_match s = false /\ system env = system env')
  /\ set_port PyRe.re_match env (Some "/dev/ttyUSB0") s
     = set_port (fun _ _ => inl (ReError "unused")) env' (Some "/dev/ttyUSB0") s
  /\ rid (snd (set_port PyRe.re_match env (Some "/dev/ttyUSB0") s))
     = Some "ASRL/dev/ttyUSB0::INSTR".
Proof.
  intros s env env'.
  destruct (unmatched_port_is_its_pattern s PyRe.re_match
              (fun _ _ => inl (ReError "unused")) env env' "/dev/ttyUSB0"
              eq_refl eq_refl) as (H1 & H2 & _).
  rewrite (H2 "ASRL/dev/ttyUSB0::INSTR" eq_refl eq_refl) in H1 |- *.
  exact (conj (conj eq_refl eq_refl) (conj H1 eq_refl)).
Defined.

Lemma windows_refuses_before_effect_witness :
  let s := Bench.session (VBool false) (Some "ASRL3::INSTR")
             (Some Bench.silent) in
  let env := mkEnv "Windows" ["ASRL3::INSTR"] in
  system env = "Windows"
  /\ set_port PyRe.re_match env (Some "LPT1") s = (inl UnsupportedPort, s).
Proof.
  intros s env.
  destruct (windows_refuses_before_effect s PyRe.re_match env "LPT1" eq_refl)
    as [H _].
  exact (conj eq_refl (H eq_refl)).
Defined.

Lemma port_assignment_closes_handle_witness :
  let s := Bench.session (VBool false) (Some "ASRL3::INSTR")
             (Some Bench.silent) in
  let env := mkEnv "Windows" ["ASRL3::INSTR"; "USB0::1234::5678::INSTR"] in
  (inst s = Some Bench.silent
   /\ built_pattern env "USB0" = inr "USB0::.*::INSTR")
  /\ log (snd (set_port PyRe.re_match env (Some "USB0") s)) = [EClose]
  /\ connected (snd (set_port PyRe.re_match env (Some "USB0") s)) = false
  /\ rid (snd (set_port PyRe.re_match env (Some "USB0") s))
     = Some "USB0::1234::5678::INSTR".
Proof.
  intros s env.
  destruct (port_assignment_closes_handle s Bench.silent PyRe.re_match env
              "USB0" "USB0::.*::INSTR" eq_refl eq_refl) as (H1 & _).
  exact (conj (conj eq_refl eq_refl) (conj H1 (conj eq_refl eq_refl))).
Defined.

Lemma unique_match_resolves_witness :
  let s := Bench.session (VBool false) None None in
  let env := mkEnv "Windows" ["ASRL3::INSTR"; "USB0::1234::5678::INSTR"] in
  (port_match s = true
   /\ fst (disconnect_if_inst s) = inr tt
   /\ built_pattern env "COM3" = inr "ASRL((?:COM)?3)::INSTR"
   /\ match_each PyRe.re_match "ASRL((?:COM)?3)::INSTR" (list_resources env)
      = inr [Some "ASRL3::INSTR"; None])
  /\ fst (set_port PyRe.re_match env (Some "COM3") s) = inr tt
  /\ port (snd (set_port PyRe.re_match env (Some "COM3") s)) = Some "COM3"
  /\ rid (snd (set_port PyRe.re_match env (Some "COM3") s))
     = Some "ASRL3::INSTR".
Proof.
  intros s env.
  assert (Hms : match_each PyRe.re_match "ASRL((?:COM)?3)::INSTR"
                  (list_resources env) = inr [Some "ASRL3::INSTR"; None])
    by (vm_compute; reflexivity).
  destruct (unique_match_resolves s PyRe.re_match env "COM3"
              "ASRL((?:COM)?3)::INSTR" "ASRL3::INSTR" _
              eq_refl eq_refl eq_refl Hms eq_refl) as (H1 & H2 & H3 & _).
  exact (conj (conj eq_refl (conj eq_refl (conj eq_refl Hms)))
           (conj H1 (conj H2 H3))).
Defined.

Lemma nothing_visible_nothing_found_witness :
  let s := Bench.session (VBool false) None None in
  let env := mkEnv "Linux" [] in
  (port_match s = true /\ fst (disconnect_if_inst s) = inr tt
   /\ built_pattern env "GPIB0::12" = inr "GPIB0::12::.*::INSTR"
   /\ list_resources env = [])
  /\ fst (set_port (fun _ _ => inr (Some "anything")) env (Some "GPIB0::12") s)
     = inl (ResourceNotFound "GPIB0::12::.*::INSTR").
Proof.
  intros s env.
  pose proof (nothing_visible_nothing_found s (fun _ _ => inr (Some "anything"))
                env "GPIB0::12" "GPIB0::12::.*::INSTR"
                eq_refl eq_refl eq_refl eq_refl) as H.
  exact (conj (conj eq_refl (conj eq_refl (conj eq_refl eq_refl)))
           (f_equal fst H)).
Defined.

Lemma matcher_error_propagates_witness :
  let s := Bench.session (VBool false) (Some "ASRL3::INSTR") None in
  let env := mkEnv "Windows" ["ASRL3::INSTR"; "USB0::1234::5678::INSTR"] in
  (port_match s = true /\ fst (disconnect_if_inst s) = inr tt
   /\ built_pattern env "USB(0" = inr "USB(0::.*::INSTR"
   /\ PyRe.re_match "USB(0::.*::INSTR" "ASRL3::INSTR"
      = inl (ReError "missing ), unterminated subpattern"))
  /\ fst (set_port PyRe.re_match env (Some "USB(0") s)
     = inl (ReError "missing ), unterminated subpattern")
  /\ rid (snd (set_port PyRe.re_match env (Some "USB(0") s))
     = Some "ASRL3::INSTR".
Proof.
  intros s env.
  assert (He : PyRe.re_match "USB(0::.*::INSTR" "ASRL3::INSTR"
               = inl (ReError "missing ), unterminated subpattern"))
    by (vm_compute; reflexivity).
  assert (Hl1 : forall x, In x (@nil string) ->
                          exists m, PyRe.re_match "USB(0::.*::INSTR" x = inr m)
    by (intros x []).
  destruct (matcher_error_propagates s PyRe.re_match env "USB(0"
              "USB(0::.*::INSTR" "ASRL3::INSTR" []
              ["USB0::1234::5678::INSTR"] _
              eq_refl eq_refl eq_refl eq_refl Hl1 He) as [H1 H2].
  exact (conj (conj eq_refl (conj eq_refl (conj eq_refl He)))
           (conj (f_equal fst H1) H2)).
Defined.

(** ** What the lock does not cover *)

(** X26. [disconnect] closes the handle without taking the lock: with
    one caller in [write] and another in [disconnect] there is an
    interleaving in which the close starts while the write is in flight
    on the transport. *)
Theorem close_is_not_serialised {R : Type} {V : Visa R}
  (s : SCPI_Instrument R) (r : R) (msg : string)
  (Hinst : inst s = Some r) :
  let progs := fun t : nat =>
                 match t with
                 | 0 => op_trace (write msg) s
                 | 1 => op_trace disconnect s
                 | _ => []
                 end in
  op_trace disconnect s = [EClose]
  /\ exists sys,
       Threads.reachable progs sys
       /\ Threads.in_call (Threads.pool sys 0) = true
       /\ Threads.todo (Threads.pool sys 0) <> []
       /\ Threads.in_call (Threads.pool sys 1) = true.
Proof.
  intros progs.
  assert (Hd : op_trace disconnect s = [EClose]).
  { unfold op_trace, disconnect, on_inst. rewrite Hinst.
    destruct (res_close r) as [res r1]. cbn [snd set_inst emit log].
    now rewrite skipn_app, Nat.sub_diag, skipn_all. }
  split; [exact Hd|].
  unfold progs, Threads.reachable. rewrite Hd, (write_trace s msg), Hinst.
  destruct (fst (res_write msg r)); [|destruct (truthy (handshake s))];
    (eexists; split; [exists [0; 0; 1]; reflexivity|]);
    (split; [reflexivity|]); (split; [discriminate | reflexivity]).
Qed.

Lemma close_is_not_serialised_witness :
  let s := Bench.session (VStr "OK") None (Some (Bench.acking "OK")) in
  inst s = Some (Bench.acking "OK")
  /\ op_trace disconnect s = [EClose]
  /\ op_trace (write "OUTP ON") s
     = [EAcquire; EWrite "OUTP ON"; EAcquire; ERead; ERelease; ERelease].
Proof.
  intros s.
  destruct (close_is_not_serialised s (Bench.acking "OK") "OUTP ON" eq_refl)
    as [H _].
  exact (conj eq_refl (conj H eq_refl)).
Defined.
